(** * Sky Jump: the simulation step of [game.js]

    A shallow embedding of the game logic of [src/game.js] (the state the
    script keeps in its top-level variables, [initPlatforms], [updatePlayer],
    [gameOver], [gameLoop], [resetGame] and the input handlers), followed by
    the properties the specification states about it.

    Numbers.  JavaScript numbers are IEEE doubles.  Every vertical quantity
    of the game (gravity 0.5, jump strength -15, the platform ladder at
    multiples of 80, the canvas bounds) is a multiple of one half of small
    magnitude, on which double arithmetic is exact; positions and velocities
    are therefore modelled as exact rationals [Q].  The horizontal damping
    [velocityX *= 0.8] and [Math.random()] are read in the same exact
    arithmetic.  The score only ever takes integer values ([Math.floor]
    results and their sums) and is modelled as [Z].

    Presentation.  Canvas drawing and the writes to [textContent] and
    [classList] do not feed back into the state and are left out, as is the
    [color] field of the player and of the platforms. *)

From Stdlib Require Import ZArith QArith Qround Qabs Qminmax Lqa Lia.
From Stdlib Require Import Bool Ascii String DecimalString List.
Import ListNotations.

Open Scope Q_scope.

(** ** Comparisons as the code evaluates them *)

(** [a < b] on numbers, as a boolean. *)
Definition Qltb (a b : Q) : bool := negb (Qle_bool b a).

(** ** Outcomes of a call

    [TypeError] is the uncaught exception raised by reading a property of
    [undefined]; [OutOfFuel] is the loop bound of the embedding being hit
    (shown below never to happen). *)
Inductive Outcome (A : Type) : Type :=
| Done (a : A)
| TypeError
| OutOfFuel.
Arguments Done {A} a.
Arguments TypeError {A}.
Arguments OutOfFuel {A}.

(** ** Values held by [highScore]

    [localStorage.getItem] returns a string or [null], so [highScore] holds
    either a number (the literal [0], or a score) or the stored text. *)
Inductive Value : Type :=
| VNumber (n : Z)
| VString (s : string).

(** The result of the language's [ToNumber] conversion. *)
Inductive Number : Type :=
| NaN
| NegInfinity
| Finite (q : Q)
| PosInfinity.

(** The relational comparison [a < b] on numbers: any comparison with [NaN]
    is false. *)
Definition Number_lt (a b : Number) : bool :=
  match a, b with
  | NaN, _ | _, NaN => false
  | Finite p, Finite q => Qltb p q
  | NegInfinity, (Finite _ | PosInfinity) => true
  | Finite _, PosInfinity => true
  | _, _ => false
  end.

(** The host's reading of a string as a number (ECMAScript [StringToNumber]).
    It is the runtime's, not the program's: the development is stated for
    every such reading. *)
Class Runtime : Type := { StringToNumber : string -> Number }.

Definition ToNumber `{Runtime} (v : Value) : Number :=
  match v with
  | VNumber n => Finite (inject_Z n)
  | VString s => StringToNumber s
  end.

(** [score > highScore], with [score] a number. *)
Definition js_gt `{Runtime} (score : Z) (highScore : Value) : bool :=
  Number_lt (ToNumber highScore) (Finite (inject_Z score)).

(** [String(n)] for an integer [n], as [localStorage.setItem] stores it
    (decimal digits; the exponent form of magnitudes from 1e21 on is out of
    the scores' range). *)
Definition Number_toString (n : Z) : string :=
  DecimalString.NilZero.string_of_int (Z.to_int n).

(** ** Constants (lines 11-12, 30-38) *)

Definition canvas_width : Q := 460.
Definition canvas_height : Q := 600.

Definition gravity : Q := 0.5.
Definition jumpStrength : Q := -15.
Definition moveSpeed : Q := 7.
Definition maxVelocityX : Q := 8.

Definition platformWidth : Q := 80.
Definition platformHeight : Q := 15.
Definition platformGap : Q := 80.

(** ** The objects *)

Module Platform.
Record t : Type := mk { x : Q; y : Q; width : Q; height : Q }.

  (** [platform.y += d] *)
Definition add_y (d : Q) (p : t) : t :=
    {| x := x p; y := y p + d; width := width p; height := height p |}.
End Platform.

Module Player.
Record t : Type := mk {
    x : Q; y : Q; width : Q; height : Q;
    velocityY : Q; velocityX : Q; jumping : bool
  }.

Definition set_x (v : Q) (p : t) : t :=
    {| x := v; y := y p; width := width p; height := height p;
       velocityY := velocityY p; velocityX := velocityX p;
       jumping := jumping p |}.
Definition set_y (v : Q) (p : t) : t :=
    {| x := x p; y := v; width := width p; height := height p;
       velocityY := velocityY p; velocityX := velocityX p;
       jumping := jumping p |}.
Definition set_velocityY (v : Q) (p : t) : t :=
    {| x := x p; y := y p; width := width p; height := height p;
       velocityY := v; velocityX := velocityX p; jumping := jumping p |}.
Definition set_velocityX (v : Q) (p : t) : t :=
    {| x := x p; y := y p; width := width p; height := height p;
       velocityY := velocityY p; velocityX := v; jumping := jumping p |}.
Definition set_jumping (b : bool) (p : t) : t :=
    {| x := x p; y := y p; width := width p; height := height p;
       velocityY := velocityY p; velocityX := velocityX p; jumping := b |}.
End Player.

Module Keys.
Record t : Type := mk { left : bool; right : bool }.
End Keys.

(** The top-level variables of the script, and the one [localStorage] item
    it uses ([None]: the key is absent). *)
Record Game : Type := mkGame {
  gameRunning : bool;
  score : Z;
  highScore : Value;
  player : Player.t;
  platforms : list Platform.t;
  keys : Keys.t;
  localStorage : option string
}.

(** [Math.random()]: the [k]-th draw of the current call is [rand k]. *)
Definition Random : Type := nat -> Q.

(** ** Start-up (lines 14-28) *)

(** [localStorage.getItem('skyJumpHighScore') || 0]: [null] and the empty
    string are falsy, every other string is truthy. *)
Definition load_highScore (item : option string) : Value :=
  match item with
  | None => VNumber 0
  | Some EmptyString => VNumber 0
  | Some s => VString s
  end.

Definition player_init : Player.t :=
  {| Player.x := canvas_width / 2 - 25;
     Player.y := canvas_height - 150;
     Player.width := 50;
     Player.height := 50;
     Player.velocityY := 0;
     Player.velocityX := 0;
     Player.jumping := false |}.

(** ** [initPlatforms] (lines 45-65) *)

Definition initPlatforms (rand : Random) : list Platform.t :=
  {| Platform.x := canvas_width / 2 - platformWidth / 2;
     Platform.y := canvas_height - 50;
     Platform.width := platformWidth;
     Platform.height := platformHeight |}
  :: map (fun i : nat =>
            {| Platform.x := rand (i - 1)%nat * (canvas_width - platformWidth);
               Platform.y :=
                 canvas_height - 50 - inject_Z (Z.of_nat i) * platformGap;
               Platform.width := platformWidth;
               Platform.height := platformHeight |})
         (seq 1 9).

(** ** [updatePlayer] (lines 102-170), phase by phase *)

(** Lines 103-112: horizontal control, clamp and move.  The product by 0.8
    is exact here and rounded to a double in the program: no property below
    states the damped value, only what the rounding keeps (the sign, the
    clamp and that the magnitude does not grow). *)
Definition steer (k : Keys.t) (p : Player.t) : Player.t :=
  let vx :=
    if Keys.left k then - moveSpeed
    else if Keys.right k then moveSpeed
    else Player.velocityX p * 0.8 in
  let vx := Qmax (- maxVelocityX) (Qmin maxVelocityX vx) in
  Player.set_x (Player.x p + vx) (Player.set_velocityX vx p).

(** Lines 114-118: screen wrap. *)
Definition wrap (p : Player.t) : Player.t :=
  if Qltb (Player.x p) (- Player.width p) then Player.set_x canvas_width p
  else if Qltb canvas_width (Player.x p) then
    Player.set_x (- Player.width p) p
  else p.

(** Lines 120-121: gravity and vertical move. *)
Definition fall (p : Player.t) : Player.t :=
  let vy := Player.velocityY p + gravity in
  Player.set_y (Player.y p + vy) (Player.set_velocityY vy p).

(** The player as it stands when the collision pass starts. *)
Definition moved (k : Keys.t) (p : Player.t) : Player.t :=
  fall (wrap (steer k p)).

(** The four geometric conjuncts of the test on lines 125-128. *)
Definition overlaps (p : Player.t) (pf : Platform.t) : bool :=
  Qltb (Platform.x pf) (Player.x p + Player.width p)
  && Qltb (Player.x p) (Platform.x pf + Platform.width pf)
  && Qltb (Platform.y pf) (Player.y p + Player.height p)
  && Qltb (Player.y p + Player.height p)
          (Platform.y pf + Platform.height pf + 15).

(** Line 134. *)
Definition jumpScore (pf : Platform.t) : Z :=
  Qfloor (Qabs (Platform.y pf - canvas_height) / 10).

(** The body of the [forEach] callback on lines 124-140, acting on the
    player and the score it closes over.  The test ends with
    [player.velocityY > 0], read from the player as the previous callbacks
    left it. *)
Definition bounce (acc : Player.t * Z) (pf : Platform.t) : Player.t * Z :=
  let '(p, sc) := acc in
  if overlaps p pf && Qltb 0 (Player.velocityY p) then
    let p' := Player.set_jumping true (Player.set_velocityY jumpStrength p) in
    let js := jumpScore pf in
    (p', if (sc <? js)%Z then js else sc)
  else (p, sc).

(** Lines 123-141. *)
Definition collide (p : Player.t) (sc : Z) (ps : list Platform.t)
  : Player.t * Z :=
  if Qltb 0 (Player.velocityY p) then fold_left bounce ps (p, sc)
  else (p, sc).

(** [platforms[platforms.length - 1]]: [undefined] on the empty array. *)
Definition lastPlatform (ps : list Platform.t) : option Platform.t :=
  match ps with
  | [] => None
  | _ => nth_error ps (length ps - 1)
  end.

(** The object literal on lines 154-160, with [r] the draw of
    [Math.random()] and [lp] the platform read on line 153. *)
Definition spawn (r : Q) (lp : Platform.t) : Platform.t :=
  {| Platform.x := r * (canvas_width - platformWidth);
     Platform.y := Platform.y lp - platformGap;
     Platform.width := platformWidth;
     Platform.height := platformHeight |}.

(** Lines 152-161: the replenishment loop; [k] counts the draws of
    [Math.random()] made so far. *)
Fixpoint replenish (fuel : nat) (rand : Random) (k : nat)
    (ps : list Platform.t) : Outcome (list Platform.t) :=
  if (length ps <? 10)%nat then
    match fuel with
    | O => OutOfFuel
    | S fuel' =>
        match lastPlatform ps with
        | None => TypeError
        | Some lp => replenish fuel' rand (S k) (ps ++ [spawn (rand k) lp])
        end
    end
  else Done ps.

(** The test on line 143. *)
Definition scrolling (p : Player.t) : bool :=
  Qltb (Player.y p) (canvas_height / 3) && Qltb (Player.velocityY p) 0.

(** Lines 146-150: move every platform down, drop those below the margin. *)
Definition scrolled (scrollSpeed : Q) (ps : list Platform.t)
  : list Platform.t :=
  filter (fun pf => Qltb (Platform.y pf) (canvas_height + 50))
         (map (Platform.add_y scrollSpeed) ps).

(** Lines 143-165: the camera scroll, on the platforms and the score. *)
Definition scroll (rand : Random) (p : Player.t) (ps : list Platform.t)
    (sc : Z) : Outcome (list Platform.t * Z) :=
  if scrolling p then
    let scrollSpeed := - Player.velocityY p in
    match replenish 10 rand 0 (scrolled scrollSpeed ps) with
    | Done ps' => Done (ps', (sc + Qfloor scrollSpeed)%Z)
    | TypeError => TypeError
    | OutOfFuel => OutOfFuel
    end
  else Done (ps, sc).

(** ** [gameOver] (lines 172-183) *)
Definition gameOver `{Runtime} (g : Game) : Game :=
  if js_gt (score g) (highScore g) then
    {| gameRunning := false;
       score := score g;
       highScore := VNumber (score g);
       player := player g;
       platforms := platforms g;
       keys := keys g;
       localStorage := Some (Number_toString (score g)) |}
  else
    {| gameRunning := false;
       score := score g;
       highScore := highScore g;
       player := player g;
       platforms := platforms g;
       keys := keys g;
       localStorage := localStorage g |}.

(** ** [updatePlayer] (lines 102-170) *)
Definition updatePlayer `{Runtime} (rand : Random) (g : Game)
  : Outcome Game :=
  let p1 := moved (keys g) (player g) in
  let '(p2, sc2) := collide p1 (score g) (platforms g) in
  match scroll rand p2 (platforms g) sc2 with
  | Done (ps, sc3) =>
      let g' := {| gameRunning := gameRunning g;
                   score := sc3;
                   highScore := highScore g;
                   player := p2;
                   platforms := ps;
                   keys := keys g;
                   localStorage := localStorage g |} in
      Done (if Qltb canvas_height (Player.y p2) then gameOver g' else g')
  | TypeError => TypeError
  | OutOfFuel => OutOfFuel
  end.

(** ** [gameLoop] (lines 202-211): one animation frame *)
Definition gameLoop `{Runtime} (rand : Random) (g : Game) : Outcome Game :=
  if negb (gameRunning g) then Done g else updatePlayer rand g.

(** ** [resetGame] (lines 213-226) *)

(** Lines 214-224: the state when [initPlatforms] has returned. *)
Definition reset (rand : Random) (g : Game) : Game :=
  let p := player g in
  let p := Player.set_x (canvas_width / 2 - 25) p in
  let p := Player.set_y (canvas_height - 150) p in
  let p := Player.set_velocityY 0 p in
  let p := Player.set_velocityX 0 p in
  {| gameRunning := true;
     score := 0;
     highScore := highScore g;
     player := p;
     platforms := initPlatforms rand;
     keys := keys g;
     localStorage := localStorage g |}.

(** Line 225 runs a frame at once; [initPlatforms] has made the first nine
    draws of [rand], the frame makes the following ones. *)
Definition resetGame `{Runtime} (rand : Random) (g : Game) : Outcome Game :=
  gameLoop (fun k => rand (9 + k)%nat) (reset rand g).

(** ** Script load (lines 14-43, 272-273) *)

(** The state when lines 1-272 have run, with [stored] the item found in
    [localStorage]. *)
Definition loaded (stored : option string) (rand : Random) : Game :=
  {| gameRunning := true;
     score := 0;
     highScore := load_highScore stored;
     player := player_init;
     platforms := initPlatforms rand;
     keys := {| Keys.left := false; Keys.right := false |};
     localStorage := stored |}.

(** Line 273 runs the first frame at once. *)
Definition boot `{Runtime} (stored : option string) (rand : Random)
  : Outcome Game :=
  gameLoop (fun k => rand (9 + k)%nat) (loaded stored rand).

(** ** Events (lines 228-270) *)

Inductive Key : Type := ArrowLeft | ArrowRight.

Inductive Event : Type :=
| Press (k : Key)           (* keydown, mousedown, touchstart *)
| Release (k : Key)         (* keyup, mouseup, touchend *)
| Frame (rand : Random)     (* the animation frame callback *)
| Restart (rand : Random).  (* click on the restart button *)

Definition set_key (k : Key) (b : bool) (g : Game) : Game :=
  {| gameRunning := gameRunning g;
     score := score g;
     highScore := highScore g;
     player := player g;
     platforms := platforms g;
     keys := match k with
             | ArrowLeft =>
                 {| Keys.left := b; Keys.right := Keys.right (keys g) |}
             | ArrowRight =>
                 {| Keys.left := Keys.left (keys g); Keys.right := b |}
             end;
     localStorage := localStorage g |}.

Definition step `{Runtime} (g : Game) (e : Event) : Outcome Game :=
  match e with
  | Press k => Done (set_key k true g)
  | Release k => Done (set_key k false g)
  | Frame rand => gameLoop rand g
  | Restart rand => resetGame rand g
  end.

(** Running a list of events, stopping at the first that does not complete. *)
Fixpoint run `{Runtime} (g : Game) (es : list Event) : Outcome Game :=
  match es with
  | [] => Done g
  | e :: es' =>
      match step g e with
      | Done g' => run g' es'
      | TypeError => TypeError
      | OutOfFuel => OutOfFuel
      end
  end.

(** The states the script can be in between two events. *)
Inductive reachable `{Runtime} : Game -> Prop :=
| reachable_boot stored rand g :
    boot stored rand = Done g -> reachable g
| reachable_step g e g' :
    reachable g -> step g e = Done g' -> reachable g'.

(** ** A runtime for evaluating the model on concrete states

    [decimalRuntime] reads a run of decimal digits as its value (the empty
    text as 0, as the language does) and any other text as [NaN].  It agrees
    with the language on the texts [String(n)] writes for a score [n >= 0]
    and on texts that have no numeric reading; the theorems below hold for
    every runtime and use this one only in their concrete instances. *)
Fixpoint digits_value (s : string) (acc : Z) : option Z :=
  match s with
  | EmptyString => Some acc
  | String c s' =>
      let n := Z.of_nat (nat_of_ascii c) in
      if ((48 <=? n) && (n <=? 57))%Z
      then digits_value s' (10 * acc + (n - 48))%Z
      else None
  end.

Definition decimalRuntime : Runtime :=
  {| StringToNumber := fun s =>
       match digits_value s 0 with
       | Some n => Finite (inject_Z n)
       | None => NaN
       end |}.

(** * Definitions used by the statements *)

(** [same_place p q]: [q] stands where [p] does, with the same size and
    horizontal velocity; a bounce writes [velocityY] and [jumping] only. *)
Definition same_place (p q : Player.t) : Prop :=
  Player.x q = Player.x p /\ Player.y q = Player.y p
  /\ Player.width q = Player.width p /\ Player.height q = Player.height p
  /\ Player.velocityX q = Player.velocityX p.

(** [ladder_from y0 ps]: the platforms of [ps] stand at heights [y0],
    [y0 - platformGap], [y0 - 2 platformGap], ... in list order. *)
Fixpoint ladder_from (y0 : Q) (ps : list Platform.t) : Prop :=
  match ps with
  | [] => True
  | a :: l => Platform.y a == y0 /\ ladder_from (y0 - platformGap) l
  end.

(** Start-up followed by a list of events. *)
Definition play `{Runtime} (stored : option string) (rand : Random)
    (es : list Event) : Outcome Game :=
  match boot stored rand with
  | Done g => run g es
  | TypeError => TypeError
  | OutOfFuel => OutOfFuel
  end.

(** The platforms form a full ladder that starts above the lower margin. *)
Definition full_ladder (ps : list Platform.t) : Prop :=
  length ps = 10%nat
  /\ exists y0, y0 < canvas_height + 50 /\ ladder_from y0 ps.

(** The invariant of the running game. *)
Definition Inv (g : Game) : Prop :=
  jumpStrength <= Player.velocityY (player g)
  /\ full_ladder (platforms g).

(** The player of the next tick when its collision pass has run. *)
Definition bounced (g : Game) : Player.t :=
  fst (collide (moved (keys g) (player g)) (score g) (platforms g)).

(** Restarts, which begin a new run. *)
Definition is_restart (e : Event) : bool :=
  match e with
  | Restart _ => true
  | _ => false
  end.

(** ** Concrete states *)

(** Every draw of [Math.random()] is one half: every platform spawns at
    [x = 190]. *)
Definition half : Random := fun _ => 0.5.

(** [n] animation frames. *)
Definition frames (n : nat) : list Event := repeat (Frame half) n.

Definition at_rest (x y vy : Q) : Player.t :=
  {| Player.x := x; Player.y := y; Player.width := 50; Player.height := 50;
     Player.velocityY := vy; Player.velocityX := 0;
     Player.jumping := false |}.

Definition no_keys : Keys.t := {| Keys.left := false; Keys.right := false |}.

Definition platform_at (x y : Q) : Platform.t :=
  {| Platform.x := x; Platform.y := y;
     Platform.width := platformWidth; Platform.height := platformHeight |}.

(** A running game with the given score, player and platforms, no key held
    and nothing stored. *)
Definition game_of (sc : Z) (p : Player.t) (ps : list Platform.t) : Game :=
  {| gameRunning := true; score := sc; highScore := VNumber 0;
     player := p; platforms := ps; keys := no_keys; localStorage := None |}.

(** The player falls at speed 5 with its bottom edge at 450, inside the
    bands of two platforms, at 440 and at 430. *)
Definition two_bands : Game :=
  game_of 0 (at_rest 205 395 4.5) [platform_at 190 440; platform_at 190 430].

(** The player falls at speed 5 onto the fifth platform of the initial
    ladder (at 230) and ends the move at [y = 190], in the upper third. *)
Definition high_bounce : Game :=
  game_of 20 (at_rest 205 185 4.5) (initPlatforms half).

(** The player falls at speed 5 and ends the move with its bottom edge
    exactly at the top of the first platform of the initial ladder (550). *)
Definition on_the_edge : Game :=
  game_of 0 (at_rest 205 495 4.5) (initPlatforms half).

(** The player has fallen to [canvas_height + 1] with a score of 7 and a
    high score of 3. *)
Definition fallen : Game :=
  {| gameRunning := true; score := 7; highScore := VNumber 3;
     player := at_rest 205 (canvas_height + 1) 10;
     platforms := initPlatforms half; keys := no_keys;
     localStorage := Some "3"%string |}.

(** The player moves left past the left edge. *)
Definition past_left_edge : Game :=
  {| gameRunning := true; score := 0; highScore := VNumber 0;
     player := at_rest (-45) 450 0;
     platforms := initPlatforms half;
     keys := {| Keys.left := true; Keys.right := false |};
     localStorage := None |}.

(** ** The collision pass as the specification words it

    Every platform whose band the player overlaps applies its effect, in
    list order, whatever the callbacks before it did. *)
Definition bounce_each (acc : Player.t * Z) (pf : Platform.t)
  : Player.t * Z :=
  let '(p, sc) := acc in
  if overlaps p pf then
    (Player.set_jumping true (Player.set_velocityY jumpStrength p),
     Z.max sc (jumpScore pf))
  else (p, sc).

Definition collide_each (p : Player.t) (sc : Z) (ps : list Platform.t)
  : Player.t * Z :=
  if Qltb 0 (Player.velocityY p) then fold_left bounce_each ps (p, sc)
  else (p, sc).

(** The band as the specification words it: closed at the platform top. *)
Definition in_band_as_worded (p : Player.t) (pf : Platform.t) : bool :=
  Qltb (Platform.x pf) (Player.x p + Player.width p)
  && Qltb (Player.x p) (Platform.x pf + Platform.width pf)
  && Qle_bool (Platform.y pf) (Player.y p + Player.height p)
  && Qltb (Player.y p + Player.height p)
          (Platform.y pf + Platform.height pf + 15).

(** ** Further definitions *)

(** The high score variable agrees with the stored item: it is what start-up
    reads from the item, or the number whose decimal text the item holds. *)
Definition synced (g : Game) : Prop :=
  highScore g = load_highScore (localStorage g)
  \/ exists h, highScore g = VNumber h
               /\ localStorage g = Some (Number_toString h).

(** A platform of the size every object literal of the script gives it. *)
Definition standard (pf : Platform.t) : Prop :=
  Platform.width pf = platformWidth /\ Platform.height pf = platformHeight.

(** The game with another player. *)
Definition with_player (p : Player.t) (g : Game) : Game :=
  {| gameRunning := gameRunning g;
     score := score g;
     highScore := highScore g;
     player := p;
     platforms := platforms g;
     keys := keys g;
     localStorage := localStorage g |}.

(** The state a tick leaves when it only moves the player. *)
Definition drift (g : Game) : Game :=
  with_player (moved (keys g) (player g)) g.

(** [n] such ticks. *)
Fixpoint drift_n (n : nat) (g : Game) : Game :=
  match n with
  | O => g
  | S n' => drift_n n' (drift g)
  end.

(** The player stands between the bands of the initial ladder (its bottom
    edge between 500 and 550), below the upper third and on the canvas. *)
Definition clear (p : Player.t) : bool :=
  Qle_bool 500 (Player.y p + Player.height p)
  && Qle_bool (Player.y p + Player.height p) 550
  && Qle_bool (canvas_height / 3) (Player.y p)
  && Qle_bool (Player.y p) canvas_height.

(** The player is [clear] in each of the next [n] states. *)
Fixpoint clear_path (n : nat) (g : Game) : bool :=
  match n with
  | O => true
  | S n' => clear (player (drift g)) && clear_path n' (drift g)
  end.

(** The first platform of every initial ladder. *)
Definition first_platform : Platform.t :=
  {| Platform.x := canvas_width / 2 - platformWidth / 2;
     Platform.y := canvas_height - 50;
     Platform.width := platformWidth;
     Platform.height := platformHeight |}.

(** The state thirteen ticks after the script has loaded, when no tick has
    done more than move the player. *)
Definition before_first_bounce (stored : option string) (rand : Random)
  : Game :=
  drift_n 12 (drift (loaded stored rand)).

(** [Math.random()] returns a number in the range from 0 to 1, 1 excluded. *)
Definition fair (rand : Random) : Prop := forall k, 0 <= rand k < 1.

(** The draws an event makes are in that range. *)
Definition fair_event (e : Event) : Prop :=
  match e with
  | Frame rand | Restart rand => fair rand
  | _ => True
  end.

(** The platform lies between the left and the right edge of the canvas. *)
Definition on_canvas (pf : Platform.t) : Prop :=
  0 <= Platform.x pf /\ Platform.x pf + Platform.width pf <= canvas_width.

(** * Properties *)

(** ** Comparisons *)

Lemma Qltb_iff (a b : Q) : Qltb a b = true <-> a < b.
Proof.
  unfold Qltb. rewrite negb_true_iff. split.
  - intro Hf. destruct (Qlt_le_dec a b) as [Hlt | Hle]; [exact Hlt |].
    apply Qle_bool_iff in Hle. congruence.
  - intro Hlt. destruct (Qle_bool b a) eqn:E; [| reflexivity].
    apply Qle_bool_iff in E. lra.
Qed.

Lemma Qltb_false_iff (a b : Q) : Qltb a b = false <-> b <= a.
Proof.
  unfold Qltb. rewrite negb_false_iff. apply Qle_bool_iff.
Qed.

(** Case analysis on a boolean comparison, leaving the order fact. *)
Ltac case_Qltb a b :=
  let E := fresh "E" in
  destruct (Qltb a b) eqn:E;
  [apply Qltb_iff in E | apply Qltb_false_iff in E].

Lemma js_gt_VNumber `{Runtime} (sc h : Z) :
  js_gt sc (VNumber h) = (h <? sc)%Z.
Proof.
  unfold js_gt; simpl.
  destruct (h <? sc)%Z eqn:E.
  - apply Qltb_iff. rewrite <- Zlt_Qlt. lia.
  - apply Qltb_false_iff. rewrite <- Zle_Qle. lia.
Qed.

(** ** The phases of [updatePlayer], field by field *)

Lemma steer_velocityX_bound (k : Keys.t) (p : Player.t) :
  Qabs (Player.velocityX (steer k p)) <= maxVelocityX.
Proof.
  unfold steer; simpl. apply Qabs_Qle_condition. split.
  - apply Q.le_max_l.
  - apply Q.max_lub.
    + unfold maxVelocityX. lra.
    + apply Q.le_min_l.
Qed.

Lemma wrap_velocityX (p : Player.t) :
  Player.velocityX (wrap p) = Player.velocityX p.
Proof.
  unfold wrap.
  destruct (Qltb (Player.x p) (- Player.width p));
    [| destruct (Qltb canvas_width (Player.x p))]; reflexivity.
Qed.

Lemma wrap_velocityY (p : Player.t) :
  Player.velocityY (wrap p) = Player.velocityY p.
Proof.
  unfold wrap.
  destruct (Qltb (Player.x p) (- Player.width p));
    [| destruct (Qltb canvas_width (Player.x p))]; reflexivity.
Qed.

Lemma wrap_y (p : Player.t) : Player.y (wrap p) = Player.y p.
Proof.
  unfold wrap.
  destruct (Qltb (Player.x p) (- Player.width p));
    [| destruct (Qltb canvas_width (Player.x p))]; reflexivity.
Qed.

Lemma wrap_width (p : Player.t) : Player.width (wrap p) = Player.width p.
Proof.
  unfold wrap.
  destruct (Qltb (Player.x p) (- Player.width p));
    [| destruct (Qltb canvas_width (Player.x p))]; reflexivity.
Qed.

Lemma wrap_height (p : Player.t) : Player.height (wrap p) = Player.height p.
Proof.
  unfold wrap.
  destruct (Qltb (Player.x p) (- Player.width p));
    [| destruct (Qltb canvas_width (Player.x p))]; reflexivity.
Qed.

(** What [wrap] does to [x], case by case. *)
Lemma wrap_x_cases (p : Player.t) :
  (Player.x p < - Player.width p /\ Player.x (wrap p) = canvas_width)
  \/ (- Player.width p <= Player.x p /\ canvas_width < Player.x p
      /\ Player.x (wrap p) = - Player.width p)
  \/ (- Player.width p <= Player.x p <= canvas_width
      /\ Player.x (wrap p) = Player.x p).
Proof.
  unfold wrap.
  case_Qltb (Player.x p) (- Player.width p); [left; split; auto |].
  case_Qltb canvas_width (Player.x p); right; [left | right]; repeat split; auto.
Qed.

Lemma moved_velocityX (k : Keys.t) (p : Player.t) :
  Player.velocityX (moved k p) = Player.velocityX (steer k p).
Proof. unfold moved, fall; simpl. apply wrap_velocityX. Qed.

Lemma moved_velocityY (k : Keys.t) (p : Player.t) :
  Player.velocityY (moved k p) = Player.velocityY p + gravity.
Proof. unfold moved, fall; simpl. rewrite wrap_velocityY. reflexivity. Qed.

Lemma moved_x (k : Keys.t) (p : Player.t) :
  Player.x (moved k p) = Player.x (wrap (steer k p)).
Proof. reflexivity. Qed.

Lemma moved_height (k : Keys.t) (p : Player.t) :
  Player.height (moved k p) = Player.height p.
Proof. unfold moved, fall; simpl. rewrite wrap_height. reflexivity. Qed.

(** ** The collision pass *)

Lemma same_place_refl (p : Player.t) : same_place p p.
Proof. repeat split. Qed.

Lemma same_place_trans (p q r : Player.t) :
  same_place p q -> same_place q r -> same_place p r.
Proof.
  unfold same_place. intros (?&?&?&?&?) (?&?&?&?&?).
  repeat split; congruence.
Qed.

Lemma bounce_same_place (p : Player.t) (sc : Z) (pf : Platform.t) :
  same_place p (fst (bounce (p, sc) pf)).
Proof.
  unfold bounce.
  destruct (overlaps p pf && Qltb 0 (Player.velocityY p));
    repeat split.
Qed.

Lemma fold_bounce_same_place (ps : list Platform.t) (p : Player.t) (sc : Z) :
  same_place p (fst (fold_left bounce ps (p, sc))).
Proof.
  revert p sc. induction ps as [| pf ps IH]; intros p sc; cbn [fold_left].
  - apply same_place_refl.
  - pose proof (bounce_same_place p sc pf) as Hb.
    destruct (bounce (p, sc) pf) as [p' sc'].
    eapply same_place_trans; [exact Hb | apply IH].
Qed.

Lemma collide_same_place (p : Player.t) (sc : Z) (ps : list Platform.t) :
  same_place p (fst (collide p sc ps)).
Proof.
  unfold collide. destruct (Qltb 0 (Player.velocityY p)).
  - apply fold_bounce_same_place.
  - apply same_place_refl.
Qed.

(** Once the player moves up, the remaining callbacks do nothing. *)
Lemma fold_bounce_rising (ps : list Platform.t) (p : Player.t) (sc : Z) :
  Qltb 0 (Player.velocityY p) = false ->
  fold_left bounce ps (p, sc) = (p, sc).
Proof.
  intro Hup. induction ps as [| pf ps IH]; simpl; [reflexivity |].
  rewrite Hup, andb_false_r. exact IH.
Qed.

Lemma rising_after_bounce (p : Player.t) :
  Qltb 0 (Player.velocityY
            (Player.set_jumping true (Player.set_velocityY jumpStrength p)))
  = false.
Proof. reflexivity. Qed.

(** The pass is decided by the first platform in list order whose band the
    player overlaps. *)
Lemma fold_bounce_first (ps : list Platform.t) (p : Player.t) (sc : Z) :
  Qltb 0 (Player.velocityY p) = true ->
  fold_left bounce ps (p, sc) =
  match find (overlaps p) ps with
  | Some pf =>
      (Player.set_jumping true (Player.set_velocityY jumpStrength p),
       Z.max sc (jumpScore pf))
  | None => (p, sc)
  end.
Proof.
  intro Hfall. induction ps as [| pf ps IH]; simpl; [reflexivity |].
  rewrite Hfall, andb_true_r.
  destruct (overlaps p pf).
  - rewrite fold_bounce_rising by apply rising_after_bounce.
    f_equal. destruct (sc <? jumpScore pf)%Z eqn:E; lia.
  - exact IH.
Qed.

Lemma collide_score_le (p : Player.t) (sc : Z) (ps : list Platform.t) :
  (sc <= snd (collide p sc ps))%Z.
Proof.
  unfold collide. destruct (Qltb 0 (Player.velocityY p)) eqn:E; simpl.
  - rewrite fold_bounce_first by exact E.
    destruct (find (overlaps p) ps); simpl; lia.
  - lia.
Qed.

(** The vertical velocity after the pass is the one before it, or the jump
    strength. *)
Lemma collide_velocityY (p : Player.t) (sc : Z) (ps : list Platform.t) :
  Player.velocityY (fst (collide p sc ps)) = Player.velocityY p
  \/ Player.velocityY (fst (collide p sc ps)) = jumpStrength.
Proof.
  unfold collide. destruct (Qltb 0 (Player.velocityY p)) eqn:E; simpl.
  - rewrite fold_bounce_first by exact E.
    destruct (find (overlaps p) ps); simpl; auto.
  - auto.
Qed.

(** ** The replenishment loop *)

Lemma lastPlatform_cons (a : Platform.t) (l : list Platform.t) :
  l <> [] -> lastPlatform (a :: l) = lastPlatform l.
Proof.
  destruct l as [| b l']; [congruence |]. intros _.
  unfold lastPlatform. simpl. rewrite Nat.sub_0_r. reflexivity.
Qed.

Lemma lastPlatform_Some (ps : list Platform.t) :
  ps <> [] -> exists lp, lastPlatform ps = Some lp /\ In lp ps.
Proof.
  induction ps as [| a l IH]; [congruence |]. intros _.
  destruct l as [| b l'].
  - exists a. split; [reflexivity | left; reflexivity].
  - rewrite lastPlatform_cons by discriminate.
    destruct IH as (lp & Hl & Hin); [discriminate |].
    exists lp. split; [exact Hl | right; exact Hin].
Qed.

Lemma lastPlatform_None (ps : list Platform.t) :
  lastPlatform ps = None <-> ps = [].
Proof.
  split.
  - intro Hn. destruct ps as [| a l]; [reflexivity |].
    destruct (lastPlatform_Some (a :: l)) as (lp & Hl & _);
      [discriminate | congruence].
  - intros ->. reflexivity.
Qed.

(** The loop faults exactly on the empty list. *)
Lemma replenish_nil (fuel : nat) (rand : Random) (k : nat) :
  replenish (S fuel) rand k [] = TypeError.
Proof. reflexivity. Qed.

(** On a non-empty list the loop completes within [10 - length ps] rounds
    and carries along every property that appending a spawned platform
    preserves. *)
Lemma replenish_inv (P : list Platform.t -> Prop) :
  (forall ps lp r,
      P ps -> lastPlatform ps = Some lp -> P (ps ++ [spawn r lp])) ->
  forall fuel rand k ps,
    ps <> [] -> (10 - length ps <= fuel)%nat -> P ps ->
    exists ps',
      replenish fuel rand k ps = Done ps' /\ P ps'
      /\ length ps' = Nat.max (length ps) 10.
Proof.
  intros Hpush fuel. induction fuel as [| fuel IH]; intros rand k ps Hne Hfuel HP.
  - exists ps. simpl.
    destruct (length ps <? 10)%nat eqn:E.
    + apply Nat.ltb_lt in E. lia.
    + apply Nat.ltb_ge in E. repeat split; [exact HP | lia].
  - cbn [replenish].
    destruct (length ps <? 10)%nat eqn:E.
    + apply Nat.ltb_lt in E.
      destruct (lastPlatform_Some ps Hne) as (lp & Hl & _). rewrite Hl.
      destruct (IH rand (S k) (ps ++ [spawn (rand k) lp])) as (ps' & Hr & HP' & Hlen).
      * destruct ps; discriminate.
      * rewrite length_app. cbn [length]. lia.
      * apply Hpush; assumption.
      * exists ps'. repeat split; [exact Hr | exact HP' |].
        rewrite Hlen, length_app. cbn [length]. lia.
    + apply Nat.ltb_ge in E. exists ps. repeat split; [exact HP | lia].
Qed.

Lemma replenish_total (rand : Random) (k : nat) (ps : list Platform.t) :
  ps <> [] ->
  exists ps', replenish 10 rand k ps = Done ps'
              /\ length ps' = Nat.max (length ps) 10.
Proof.
  intro Hne.
  destruct (replenish_inv (fun _ => True)) with (fuel := 10%nat) (rand := rand)
    (k := k) (ps := ps) as (ps' & Hr & _ & Hlen); auto; [lia |].
  exists ps'. split; assumption.
Qed.

(** ** The platform ladder *)

Lemma ladder_from_compat (ps : list Platform.t) (y0 y1 : Q) :
  y0 == y1 -> ladder_from y0 ps -> ladder_from y1 ps.
Proof.
  revert y0 y1. induction ps as [| a l IH]; intros y0 y1 Heq; simpl; [auto |].
  intros [Ha Hl]. split; [lra |].
  apply (IH (y0 - platformGap)); [lra | exact Hl].
Qed.

Lemma ladder_initPlatforms (rand : Random) :
  ladder_from (canvas_height - 50) (initPlatforms rand).
Proof.
  unfold initPlatforms, canvas_height, platformGap. simpl.
  repeat split; lra.
Qed.

Lemma length_initPlatforms (rand : Random) :
  length (initPlatforms rand) = 10%nat.
Proof. reflexivity. Qed.

Lemma ladder_add_y (d : Q) (ps : list Platform.t) (y0 : Q) :
  ladder_from y0 ps -> ladder_from (y0 + d) (map (Platform.add_y d) ps).
Proof.
  revert y0. induction ps as [| a l IH]; intros y0; simpl; [auto |].
  intros [Ha Hl]. split; [lra |].
  apply (ladder_from_compat _ (y0 - platformGap + d)); [lra |].
  apply IH. exact Hl.
Qed.

Lemma ladder_below (c : Q) (ps : list Platform.t) (y0 : Q) :
  ladder_from y0 ps -> y0 < c ->
  Forall (fun pf => Platform.y pf < c) ps.
Proof.
  revert y0. induction ps as [| a l IH]; intros y0; simpl; [constructor |].
  intros [Ha Hl] Hc. constructor; [lra |].
  apply (IH (y0 - platformGap)); [exact Hl | unfold platformGap; lra].
Qed.

Lemma filter_all (A : Type) (f : A -> bool) (l : list A) :
  Forall (fun a => f a = true) l -> filter f l = l.
Proof.
  induction 1 as [| a l Ha _ IH]; simpl; [reflexivity |].
  rewrite Ha, IH. reflexivity.
Qed.

(** A ladder whose second rung is above the margin loses at most its first
    platform to the filter on line 150. *)
Lemma ladder_filter (c : Q) (a : Platform.t) (l : list Platform.t) (y0 : Q) :
  ladder_from y0 (a :: l) -> y0 - platformGap < c ->
  let keep := filter (fun pf => Qltb (Platform.y pf) c) (a :: l) in
  (y0 < c /\ keep = a :: l) \/ (c <= y0 /\ keep = l).
Proof.
  simpl. intros [Ha Hl] Hc.
  assert (Hfl : filter (fun pf => Qltb (Platform.y pf) c) l = l).
  { apply filter_all.
    eapply Forall_impl; [| exact (ladder_below c l _ Hl Hc)].
    intros pf Hpf. apply Qltb_iff. exact Hpf. }
  rewrite Hfl.
  case_Qltb (Platform.y a) c; [left | right]; split; auto; lra.
Qed.

Lemma ladder_snoc (r : Q) (ps : list Platform.t) (lp : Platform.t) (y0 : Q) :
  ladder_from y0 ps -> lastPlatform ps = Some lp ->
  ladder_from y0 (ps ++ [spawn r lp]).
Proof.
  revert y0. induction ps as [| a l IH]; intros y0 Hlad Hlast.
  - discriminate.
  - destruct Hlad as [Ha Hl]. destruct l as [| b l'].
    + injection Hlast as <-. simpl. repeat split; [exact Ha | lra].
    + rewrite lastPlatform_cons in Hlast by discriminate.
      change ((a :: b :: l') ++ [spawn r lp])
        with (a :: ((b :: l') ++ [spawn r lp])).
      split; [exact Ha |]. apply IH; assumption.
Qed.

(** ** The camera scroll *)

Lemma scrolling_iff (p : Player.t) :
  scrolling p = true
  <-> Player.y p < canvas_height / 3 /\ Player.velocityY p < 0.
Proof.
  unfold scrolling. rewrite andb_true_iff, !Qltb_iff. reflexivity.
Qed.

Lemma scroll_idle (rand : Random) (p : Player.t) (ps : list Platform.t)
    (sc : Z) :
  scrolling p = false -> scroll rand p ps sc = Done (ps, sc).
Proof. unfold scroll. intros ->. reflexivity. Qed.

Lemma Qfloor_nonneg (q : Q) : 0 <= q -> (0 <= Qfloor q)%Z.
Proof. intro Hq. apply (Qfloor_resp_le 0 q Hq). Qed.

(** A scroll over a list that keeps a platform completes, with the score
    raised by the floor of the scroll speed. *)
Lemma scroll_nonempty (rand : Random) (p : Player.t) (ps : list Platform.t)
    (sc : Z) :
  scrolling p = true ->
  scrolled (- Player.velocityY p) ps <> [] ->
  exists ps',
    scroll rand p ps sc = Done (ps', (sc + Qfloor (- Player.velocityY p))%Z)
    /\ length ps'
       = Nat.max (length (scrolled (- Player.velocityY p) ps)) 10.
Proof.
  intros Hs Hne. unfold scroll. rewrite Hs.
  destruct (replenish_total rand 0 _ Hne) as (ps' & Hr & Hlen).
  rewrite Hr. exists ps'. split; [reflexivity | exact Hlen].
Qed.

Lemma scroll_score_le (rand : Random) (p : Player.t) (ps ps' : list Platform.t)
    (sc sc' : Z) :
  scroll rand p ps sc = Done (ps', sc') -> (sc <= sc')%Z.
Proof.
  unfold scroll. destruct (scrolling p) eqn:Hs.
  - apply scrolling_iff in Hs. destruct Hs as [_ Hvy].
    destruct (replenish 10 rand 0 _); try discriminate.
    intro Heq.
    assert (Hsc : (sc + Qfloor (- Player.velocityY p))%Z = sc') by congruence.
    assert (0 <= Qfloor (- Player.velocityY p))%Z
      by (apply Qfloor_nonneg; lra).
    lia.
  - intro Heq. injection Heq as _ Hsc. lia.
Qed.

(** Scrolling a full ladder that starts above the margin at a speed within
    the jump strength: one platform at most leaves, the list is never
    emptied, and the loop restores a full ladder. *)
Lemma scroll_ladder (rand : Random) (p : Player.t) (ps : list Platform.t)
    (sc : Z) (y0 : Q) :
  jumpStrength <= Player.velocityY p ->
  length ps = 10%nat ->
  y0 < canvas_height + 50 ->
  ladder_from y0 ps ->
  (scrolling p = true -> scrolled (- Player.velocityY p) ps <> [])
  /\ exists ps' sc' y1,
       scroll rand p ps sc = Done (ps', sc')
       /\ length ps' = 10%nat
       /\ y1 < canvas_height + 50
       /\ ladder_from y1 ps'.
Proof.
  intros Hvy Hlen Hy0 Hlad.
  destruct (scrolling p) eqn:Hs.
  2:{ split; [discriminate |]. exists ps, sc, y0.
      rewrite scroll_idle by exact Hs. auto. }
  pose proof Hs as Hs'. apply scrolling_iff in Hs'. destruct Hs' as [_ Hneg].
  set (d := - Player.velocityY p) in *.
  assert (Hd : 0 < d <= 15) by (unfold d, jumpStrength in *; lra).
  destruct ps as [| a l]; [discriminate |].
  assert (Hl : length l = 9%nat) by (simpl in Hlen; lia).
  pose proof (ladder_add_y d _ _ Hlad) as Hshift.
  cbn [map] in Hshift.
  destruct (ladder_filter (canvas_height + 50) _ _ _ Hshift) as [[Hlt Hk] | [Hge Hk]].
  { unfold platformGap. lra. }
  - (* nothing leaves the screen *)
    assert (Hsc : scrolled d (a :: l) = Platform.add_y d a :: map (Platform.add_y d) l)
      by exact Hk.
    split; [intros _; rewrite Hsc; discriminate |].
    destruct (replenish_inv (ladder_from (y0 + d)) (fun ps lp r H1 H2 =>
                ladder_snoc r ps lp _ H1 H2) 10%nat rand 0%nat
                (scrolled d (a :: l))) as (ps' & Hr & Hlad' & Hlen').
    + rewrite Hsc. discriminate.
    + lia.
    + rewrite Hsc. exact Hshift.
    + exists ps', (sc + Qfloor d)%Z, (y0 + d).
      unfold scroll. rewrite Hs. fold d. rewrite Hr.
      repeat split; [| exact Hlt | exact Hlad'].
      rewrite Hlen', Hsc. simpl. rewrite length_map, Hl. reflexivity.
  - (* the lowest platform leaves, a new one is spawned on top *)
    assert (Hsc : scrolled d (a :: l) = map (Platform.add_y d) l) by exact Hk.
    assert (Hne : scrolled d (a :: l) <> []).
    { rewrite Hsc. destruct l; [discriminate Hl | discriminate]. }
    split; [intros _; exact Hne |].
    destruct Hshift as [_ Htail].
    destruct (replenish_inv (ladder_from (y0 + d - platformGap))
                (fun ps lp r H1 H2 => ladder_snoc r ps lp _ H1 H2)
                10%nat rand 0%nat (scrolled d (a :: l)))
      as (ps' & Hr & Hlad' & Hlen').
    + exact Hne.
    + lia.
    + rewrite Hsc. exact Htail.
    + exists ps', (sc + Qfloor d)%Z, (y0 + d - platformGap).
      unfold scroll. rewrite Hs. fold d. rewrite Hr.
      repeat split; [| unfold platformGap; lra | exact Hlad'].
      rewrite Hlen', Hsc, length_map, Hl. reflexivity.
Qed.

(** ** [gameOver] and [updatePlayer] as a whole *)

Lemma gameOver_fields `{Runtime} (g : Game) :
  gameRunning (gameOver g) = false
  /\ score (gameOver g) = score g
  /\ player (gameOver g) = player g
  /\ platforms (gameOver g) = platforms g
  /\ keys (gameOver g) = keys g.
Proof.
  unfold gameOver. destruct (js_gt (score g) (highScore g)); repeat split.
Qed.

(** The tick completes exactly when its scroll does, and then leaves the
    player of the collision pass and the platforms and score of the
    scroll. *)
Lemma updatePlayer_spec `{Runtime} (rand : Random) (g : Game) :
  let c := collide (moved (keys g) (player g)) (score g) (platforms g) in
  match scroll rand (fst c) (platforms g) (snd c) with
  | Done (ps, sc) =>
      exists g', updatePlayer rand g = Done g'
                 /\ player g' = fst c /\ score g' = sc /\ platforms g' = ps
                 /\ keys g' = keys g
  | TypeError => updatePlayer rand g = TypeError
  | OutOfFuel => updatePlayer rand g = OutOfFuel
  end.
Proof.
  unfold updatePlayer.
  destruct (collide (moved (keys g) (player g)) (score g) (platforms g))
    as [p2 sc2]. cbn [fst snd].
  destruct (scroll rand p2 (platforms g) sc2) as [[ps sc] | |];
    try reflexivity.
  eexists. split; [reflexivity |].
  destruct (Qltb canvas_height (Player.y p2)).
  - destruct (gameOver_fields
                {| gameRunning := gameRunning g; score := sc;
                   highScore := highScore g; player := p2; platforms := ps;
                   keys := keys g; localStorage := localStorage g |})
      as (_ & Hs & Hp & Hps & Hk).
    rewrite Hs, Hp, Hps, Hk. repeat split.
  - repeat split.
Qed.

Lemma updatePlayer_Done `{Runtime} (rand : Random) (g g' : Game) :
  updatePlayer rand g = Done g' ->
  let c := collide (moved (keys g) (player g)) (score g) (platforms g) in
  scroll rand (fst c) (platforms g) (snd c) = Done (platforms g', score g')
  /\ player g' = fst c /\ keys g' = keys g.
Proof.
  intros Hu c. pose proof (updatePlayer_spec rand g) as Hspec.
  cbv zeta in Hspec. fold c in Hspec.
  destruct (scroll rand (fst c) (platforms g) (snd c)) as [[ps sc] | |];
    try congruence.
  destruct Hspec as (g2 & Hu2 & Hp & Hs & Hps & Hk).
  assert (g2 = g') by congruence. subst g2.
  rewrite Hp, Hs, Hps, Hk. repeat split.
Qed.

(** ** Runs and reachable states *)

Lemma reachable_run `{Runtime} (es : list Event) (g g' : Game) :
  reachable g -> run g es = Done g' -> reachable g'.
Proof.
  revert g. induction es as [| e es IH]; intros g Hg; simpl.
  - intro Heq. injection Heq as <-. exact Hg.
  - destruct (step g e) as [g1 | |] eqn:Hs; try discriminate.
    apply IH. eapply reachable_step; eassumption.
Qed.

Lemma reachable_play `{Runtime} (stored : option string) (rand : Random)
    (es : list Event) (g : Game) :
  play stored rand es = Done g -> reachable g.
Proof.
  unfold play. destruct (boot stored rand) as [g0 | |] eqn:Hb;
    try discriminate.
  apply reachable_run. eapply reachable_boot. exact Hb.
Qed.

Lemma gameLoop_running `{Runtime} (rand : Random) (g : Game) :
  gameRunning g = true -> gameLoop rand g = updatePlayer rand g.
Proof. unfold gameLoop. intros ->. reflexivity. Qed.

Lemma boot_tick `{Runtime} (stored : option string) (rand : Random) :
  boot stored rand
  = updatePlayer (fun k => rand (9 + k)%nat) (loaded stored rand).
Proof. unfold boot. apply gameLoop_running. reflexivity. Qed.

Lemma gameRunning_reset (rand : Random) (g : Game) :
  gameRunning (reset rand g) = true.
Proof. reflexivity. Qed.

Lemma resetGame_tick `{Runtime} (rand : Random) (g : Game) :
  resetGame rand g
  = updatePlayer (fun k => rand (9 + k)%nat) (reset rand g).
Proof.
  unfold resetGame. apply gameLoop_running. apply gameRunning_reset.
Qed.

Lemma step_Press `{Runtime} (k : Key) (g : Game) :
  step g (Press k) = Done (set_key k true g).
Proof. reflexivity. Qed.

Lemma step_Release `{Runtime} (k : Key) (g : Game) :
  step g (Release k) = Done (set_key k false g).
Proof. reflexivity. Qed.

Lemma step_Frame `{Runtime} (rand : Random) (g : Game) :
  step g (Frame rand) = gameLoop rand g.
Proof. reflexivity. Qed.

Lemma step_Restart `{Runtime} (rand : Random) (g : Game) :
  step g (Restart rand)
  = updatePlayer (fun k => rand (9 + k)%nat) (reset rand g).
Proof. apply resetGame_tick. Qed.

(** A property that holds when the script is loaded and after a reset, and
    that key events and completed ticks preserve, holds of every reachable
    state. *)
Lemma reachable_inv `{Runtime} (I : Game -> Prop) :
  (forall stored rand, I (loaded stored rand)) ->
  (forall rand g, I (reset rand g)) ->
  (forall k b g, I g -> I (set_key k b g)) ->
  (forall rand g g', I g -> updatePlayer rand g = Done g' -> I g') ->
  forall g, reachable g -> I g.
Proof.
  intros Hload Hreset Hkey Htick g Hreach.
  induction Hreach as [stored rand g Hb | g e g' _ IH Hs].
  - rewrite boot_tick in Hb.
    eapply Htick; [apply Hload | exact Hb].
  - destruct e as [k | k | rand | rand].
    + rewrite step_Press in Hs. injection Hs as <-. apply Hkey, IH.
    + rewrite step_Release in Hs. injection Hs as <-. apply Hkey, IH.
    + rewrite step_Frame in Hs. unfold gameLoop in Hs.
      destruct (gameRunning g).
      * eapply Htick; [exact IH | exact Hs].
      * injection Hs as <-. exact IH.
    + rewrite step_Restart in Hs.
      eapply Htick; [apply Hreset | exact Hs].
Qed.

Lemma full_ladder_initPlatforms (rand : Random) :
  full_ladder (initPlatforms rand).
Proof.
  split; [reflexivity |]. exists (canvas_height - 50).
  split; [unfold canvas_height; lra | apply ladder_initPlatforms].
Qed.

Lemma Inv_loaded (stored : option string) (rand : Random) :
  Inv (loaded stored rand).
Proof.
  split; [unfold jumpStrength; simpl; lra | apply full_ladder_initPlatforms].
Qed.

Lemma Inv_reset (rand : Random) (g : Game) : Inv (reset rand g).
Proof.
  split; [unfold jumpStrength; simpl; lra | apply full_ladder_initPlatforms].
Qed.

Lemma Inv_set_key (k : Key) (b : bool) (g : Game) :
  Inv g -> Inv (set_key k b g).
Proof. intro Hg. exact Hg. Qed.

(** The player of the collision pass never moves up faster than the jump
    strength when the player of the previous tick did not. *)
Lemma collide_velocityY_floor (k : Keys.t) (p : Player.t) (sc : Z)
    (ps : list Platform.t) :
  jumpStrength <= Player.velocityY p ->
  jumpStrength <= Player.velocityY (fst (collide (moved k p) sc ps)).
Proof.
  intro Hp.
  destruct (collide_velocityY (moved k p) sc ps) as [-> | ->].
  - rewrite moved_velocityY. unfold gravity. lra.
  - lra.
Qed.

(** From a state of the invariant the tick completes, in a state of the
    invariant; when it scrolls, the filtered list it hands to the loop is
    not empty. *)
Lemma Inv_tick `{Runtime} (rand : Random) (g : Game) :
  Inv g ->
  let p2 := fst (collide (moved (keys g) (player g)) (score g)
                   (platforms g)) in
  (scrolling p2 = true ->
   scrolled (- Player.velocityY p2) (platforms g) <> [])
  /\ exists g', updatePlayer rand g = Done g' /\ Inv g'.
Proof.
  intros [Hvy [Hlen (y0 & Hy0 & Hlad)]] p2.
  pose proof (collide_velocityY_floor (keys g) (player g) (score g)
                (platforms g) Hvy) as Hvy2.
  fold p2 in Hvy2.
  destruct (scroll_ladder rand p2 (platforms g)
              (snd (collide (moved (keys g) (player g)) (score g)
                      (platforms g))) y0 Hvy2 Hlen Hy0 Hlad)
    as [Hne (ps' & sc' & y1 & Hscroll & Hlen' & Hy1 & Hlad')].
  split; [exact Hne |].
  pose proof (updatePlayer_spec rand g) as Hspec. cbv zeta in Hspec.
  fold p2 in Hspec. rewrite Hscroll in Hspec.
  destruct Hspec as (g' & Hu & Hp & _ & Hps & _).
  exists g'. split; [exact Hu |].
  split; [rewrite Hp; exact Hvy2 |].
  rewrite Hps. split; [exact Hlen' |]. exists y1. auto.
Qed.

Lemma reachable_Inv `{Runtime} (g : Game) : reachable g -> Inv g.
Proof.
  apply reachable_inv.
  - apply Inv_loaded.
  - apply Inv_reset.
  - apply Inv_set_key.
  - intros rand g0 g' Hg0 Hu.
    destruct (Inv_tick rand g0 Hg0) as [_ (g2 & Hu2 & Hg2)].
    congruence.
Qed.

(** * The claims *)

(** ** The collision pass on arbitrary states *)

(** On [two_bands], a state that no run reaches, the falling player
    overlaps the bands of both platforms: applying the effect of each in
    turn would leave the score at 17, the jump score of the second; the
    tick leaves it at 16, the jump score of the first, because the test of
    the callback reads the velocity the first bounce has just set to -15. *)
Lemma collision_pass_counterexample :
  let p1 := moved (keys two_bands) (player two_bands) in
  Qltb 0 (Player.velocityY p1) = true
  /\ map (overlaps p1) (platforms two_bands) = [true; true]
  /\ map jumpScore (platforms two_bands) = [16%Z; 17%Z]
  /\ snd (collide_each p1 (score two_bands) (platforms two_bands)) = 17%Z
  /\ snd (collide p1 (score two_bands) (platforms two_bands)) = 16%Z
  /\ exists g', @updatePlayer decimalRuntime half two_bands = Done g'
                /\ score g' = 16%Z.
Proof.
  cbv zeta. repeat split; try (vm_compute; reflexivity).
  eexists. split; vm_compute; reflexivity.
Qed.

(** On any state, the collision pass of a falling player applies the effect
    of the first platform in list order whose band the player overlaps, and
    of no other: the vertical velocity becomes the jump strength and the
    score becomes the larger of the score and that platform's jump score;
    without such a platform, or when the player is not falling, nothing
    changes.  The score never decreases. *)
Theorem collision_pass_first_platform (p : Player.t) (sc : Z)
    (ps : list Platform.t) :
  collide p sc ps =
    (if Qltb 0 (Player.velocityY p) then
       match find (overlaps p) ps with
       | Some pf =>
           (Player.set_jumping true (Player.set_velocityY jumpStrength p),
            Z.max sc (jumpScore pf))
       | None => (p, sc)
       end
     else (p, sc))
  /\ (sc <= snd (collide p sc ps))%Z.
Proof.
  split; [| apply collide_score_le].
  unfold collide. destruct (Qltb 0 (Player.velocityY p)) eqn:E.
  - apply fold_bounce_first. exact E.
  - reflexivity.
Qed.

(** ** C2 *)

(** C2: in every state reachable from the initial layout, a tick that
    scrolls hands a non-empty list to the replenishment loop, so that the
    read of the last platform never yields [undefined]; and every event (a
    key, a frame, a restart) completes without a fault. *)
Theorem replenishment_never_faults `{Runtime} (g : Game) :
  reachable g ->
  (scrolling (bounced g) = true ->
   lastPlatform (scrolled (- Player.velocityY (bounced g)) (platforms g))
   <> None)
  /\ forall e, exists g', step g e = Done g'.
Proof.
  intro Hreach. pose proof (reachable_Inv g Hreach) as Hinv. split.
  - intros Hs Hnone. apply lastPlatform_None in Hnone.
    destruct (Inv_tick half g Hinv) as [Hne _]. exact (Hne Hs Hnone).
  - intros [k | k | rand | rand].
    + rewrite step_Press. eexists; reflexivity.
    + rewrite step_Release. eexists; reflexivity.
    + rewrite step_Frame. unfold gameLoop.
      destruct (gameRunning g); cbn [negb].
      * destruct (Inv_tick rand g Hinv) as [_ (g' & Hu & _)].
        exists g'. exact Hu.
      * eexists; reflexivity.
    + rewrite step_Restart.
      destruct (Inv_tick (fun k => rand (9 + k)%nat) (reset rand g)
                  (Inv_reset rand g)) as [_ (g' & Hu & _)].
      exists g'. exact Hu.
Qed.

(** C2 at the state reached by 61 frames after start-up, whose next tick
    scrolls the lowest platform below the margin: nine platforms are left,
    and the loop reads the last of them. *)
Lemma replenishment_never_faults_witness :
  exists g,
    @play decimalRuntime None half (frames 61) = Done g
    /\ scrolling (bounced g) = true
    /\ length (scrolled (- Player.velocityY (bounced g)) (platforms g))
       = 9%nat
    /\ (scrolling (bounced g) = true ->
        lastPlatform (scrolled (- Player.velocityY (bounced g)) (platforms g))
        <> None)
    /\ forall e, exists g', @step decimalRuntime g e = Done g'.
Proof.
  eexists. split; [vm_compute; reflexivity |].
  split; [vm_compute; reflexivity |].
  split; [vm_compute; reflexivity |].
  apply (@replenishment_never_faults decimalRuntime).
  apply (@reachable_play decimalRuntime None half (frames 61)).
  vm_compute; reflexivity.
Defined.

(** ** C10 *)

(** C10: in every reachable state the vertical velocity is at least the
    jump strength, -15; the scroll distance of a tick, the opposite of that
    velocity, is therefore at most 15. *)
Theorem velocityY_never_below_jumpStrength `{Runtime} (g : Game) :
  reachable g ->
  jumpStrength <= Player.velocityY (player g)
  /\ - Player.velocityY (player g) <= 15.
Proof.
  intro Hreach. destruct (reachable_Inv g Hreach) as [Hvy _].
  split; [exact Hvy | unfold jumpStrength in Hvy; lra].
Qed.

(** C10 at the first bounce, 14 ticks after start-up, where the bound is
    met. *)
Lemma velocityY_never_below_jumpStrength_witness :
  exists g,
    @play decimalRuntime None half (frames 13) = Done g
    /\ Player.velocityY (player g) == jumpStrength
    /\ jumpStrength <= Player.velocityY (player g)
    /\ - Player.velocityY (player g) <= 15.
Proof.
  eexists. split; [vm_compute; reflexivity |].
  split; [vm_compute; reflexivity |].
  apply (@velocityY_never_below_jumpStrength decimalRuntime).
  apply (@reachable_play decimalRuntime None half (frames 13)).
  vm_compute; reflexivity.
Defined.

(** ** C7 *)

Lemma updatePlayer_velocityX `{Runtime} (rand : Random) (g g' : Game) :
  updatePlayer rand g = Done g' ->
  Player.velocityX (player g')
  = Player.velocityX (steer (keys g) (player g)).
Proof.
  intro Hu. destruct (updatePlayer_Done rand g g' Hu) as (_ & Hp & _).
  rewrite Hp.
  destruct (collide_same_place (moved (keys g) (player g)) (score g)
              (platforms g)) as (_ & _ & _ & _ & Hvx).
  rewrite Hvx. apply moved_velocityX.
Qed.

(** C7: in every reachable state, whatever the inputs were, the horizontal
    velocity has magnitude at most [maxVelocityX], 8. *)
Theorem velocityX_bounded `{Runtime} (g : Game) :
  reachable g -> Qabs (Player.velocityX (player g)) <= maxVelocityX.
Proof.
  intro Hreach. revert g Hreach.
  apply (reachable_inv
           (fun g => Qabs (Player.velocityX (player g)) <= maxVelocityX)).
  - intros stored rand. unfold maxVelocityX. simpl. lra.
  - intros rand g0. unfold maxVelocityX. simpl. lra.
  - intros k b g0 Hg0. exact Hg0.
  - intros rand g0 g' _ Hu.
    rewrite (updatePlayer_velocityX rand g0 g' Hu).
    apply steer_velocityX_bound.
Qed.

(** C7 after a frame with the right arrow held: the velocity is 7. *)
Lemma velocityX_bounded_witness :
  exists g,
    @play decimalRuntime None half [Press ArrowRight; Frame half] = Done g
    /\ Player.velocityX (player g) == moveSpeed
    /\ Qabs (Player.velocityX (player g)) <= maxVelocityX.
Proof.
  eexists. split; [vm_compute; reflexivity |].
  split; [vm_compute; reflexivity |].
  apply (@velocityX_bounded decimalRuntime).
  apply (@reachable_play decimalRuntime None half
           [Press ArrowRight; Frame half]).
  vm_compute; reflexivity.
Defined.

(** ** C8 *)

(** C8: with [x1] the player's [x] after the horizontal move of a tick and
    [w] its width, the tick leaves [x = canvas_width] when [x1 + w < 0],
    leaves [x = - w] when [x1 > canvas_width], and in every case leaves [x]
    in the closed range from [- w] to [canvas_width]. *)
Theorem wrap_keeps_x_in_range `{Runtime} (rand : Random) (g g' : Game) :
  0 <= Player.width (player g) ->
  updatePlayer rand g = Done g' ->
  let x1 := Player.x (steer (keys g) (player g)) in
  let w := Player.width (player g) in
  (x1 + w < 0 -> Player.x (player g') = canvas_width)
  /\ (canvas_width < x1 -> Player.x (player g') = - w)
  /\ - w <= Player.x (player g') <= canvas_width.
Proof.
  intros Hw Hu x1 w.
  destruct (updatePlayer_Done rand g g' Hu) as (_ & Hp & _).
  destruct (collide_same_place (moved (keys g) (player g)) (score g)
              (platforms g)) as (Hx & _).
  rewrite Hp, Hx, moved_x. clear Hp Hx Hu.
  assert (Hcw : 0 <= canvas_width) by (unfold canvas_width; lra).
  pose proof (wrap_x_cases (steer (keys g) (player g))) as Hc.
  change (Player.width (steer (keys g) (player g))) with w in Hc.
  fold x1 in Hc. fold w in Hw.
  destruct Hc as [[Hlt ->] | [(Hge & Hgt & ->) | (Hin & ->)]];
    repeat split; intros; try reflexivity; try lra; exfalso; lra.
Qed.

(** C8 on [past_left_edge]: the move takes [x] from -45 to -52, beyond the
    left edge, and the tick leaves it at 460. *)
Lemma wrap_keeps_x_in_range_witness :
  exists g',
    @updatePlayer decimalRuntime half past_left_edge = Done g'
    /\ Player.x (steer (keys past_left_edge) (player past_left_edge))
       + Player.width (player past_left_edge) < 0
    /\ (let x1 := Player.x (steer (keys past_left_edge)
                              (player past_left_edge)) in
        let w := Player.width (player past_left_edge) in
        (x1 + w < 0 -> Player.x (player g') = canvas_width)
        /\ (canvas_width < x1 -> Player.x (player g') = - w)
        /\ - w <= Player.x (player g') <= canvas_width).
Proof.
  eexists. split; [vm_compute; reflexivity |].
  split; [vm_compute; reflexivity |].
  apply (@wrap_keeps_x_in_range decimalRuntime half past_left_edge).
  - vm_compute; discriminate.
  - vm_compute; reflexivity.
Defined.

(** ** C4 *)

Lemma updatePlayer_score_le `{Runtime} (rand : Random) (g g' : Game) :
  updatePlayer rand g = Done g' -> (score g <= score g')%Z.
Proof.
  intro Hu. destruct (updatePlayer_Done rand g g' Hu) as (Hs & _).
  apply scroll_score_le in Hs.
  pose proof (collide_score_le (moved (keys g) (player g)) (score g)
                (platforms g)).
  lia.
Qed.

(** C4: along any sequence of events without a reset (frames, with keys
    pressed and released in between), the score of the state reached is at
    least the score of the state left; in particular a tick never lowers
    it. *)
Theorem score_never_decreases `{Runtime} (es : list Event) (g g' : Game) :
  existsb is_restart es = false ->
  run g es = Done g' ->
  (score g <= score g')%Z.
Proof.
  revert g. induction es as [| e es IH]; intros g Hnr; simpl.
  - intro Heq. injection Heq as <-. lia.
  - simpl in Hnr. apply orb_false_iff in Hnr. destruct Hnr as [He Hes].
    destruct (step g e) as [g1 | |] eqn:Hs; try discriminate.
    intro Hrun. specialize (IH g1 Hes Hrun).
    assert (score g <= score g1)%Z; [| lia].
    destruct e as [k | k | rand | rand]; try discriminate.
    + rewrite step_Press in Hs. injection Hs as <-. simpl. lia.
    + rewrite step_Release in Hs. injection Hs as <-. simpl. lia.
    + rewrite step_Frame in Hs. unfold gameLoop in Hs.
      destruct (gameRunning g).
      * eapply updatePlayer_score_le. exact Hs.
      * injection Hs as <-. lia.
Qed.

(** C4 over start-up's state and the 13 frames up to the first bounce, which
    raises the score from 0 to 5. *)
Lemma score_never_decreases_witness :
  exists g g',
    @boot decimalRuntime None half = Done g
    /\ @run decimalRuntime g (frames 13) = Done g'
    /\ score g = 0%Z /\ score g' = 5%Z
    /\ (score g <= score g')%Z.
Proof.
  eexists. eexists. split; [vm_compute; reflexivity |].
  split; [vm_compute; reflexivity |].
  split; [reflexivity |]. split; [reflexivity |].
  apply (@score_never_decreases decimalRuntime (frames 13)).
  - reflexivity.
  - vm_compute; reflexivity.
Defined.

(** ** C9 *)

(** C9: a tick that leaves the player below the canvas ([y >
    canvas_height]) clears the running flag; it records the score as the
    new high score, in the variable and in the store, when the score
    compares greater than the high score held so far, and leaves both as
    they were otherwise. *)
Theorem fall_ends_the_game `{Runtime} (rand : Random) (g g' : Game) :
  updatePlayer rand g = Done g' ->
  canvas_height < Player.y (player g') ->
  gameRunning g' = false
  /\ (if js_gt (score g') (highScore g)
      then highScore g' = VNumber (score g')
           /\ localStorage g' = Some (Number_toString (score g'))
      else highScore g' = highScore g
           /\ localStorage g' = localStorage g).
Proof.
  unfold updatePlayer.
  destruct (collide (moved (keys g) (player g)) (score g) (platforms g))
    as [p2 sc2].
  destruct (scroll rand p2 (platforms g) sc2) as [[ps sc] | |];
    try discriminate.
  case_Qltb canvas_height (Player.y p2).
  - intros Heq _. injection Heq as <-. unfold gameOver. simpl.
    destruct (js_gt sc (highScore g)) eqn:Hgt; simpl; rewrite Hgt;
      repeat split.
  - intros Heq Hy. injection Heq as <-. simpl in Hy. lra.
Qed.

(** C9 on [fallen]: the player is at [canvas_height + 1] with score 7 and
    high score 3; the tick ends the game and stores 7. *)
Lemma fall_ends_the_game_witness :
  exists g',
    @updatePlayer decimalRuntime half fallen = Done g'
    /\ canvas_height < Player.y (player g')
    /\ localStorage g' = Some "7"%string
    /\ gameRunning g' = false
    /\ (if @js_gt decimalRuntime (score g') (highScore fallen)
        then highScore g' = VNumber (score g')
             /\ localStorage g' = Some (Number_toString (score g'))
        else highScore g' = highScore fallen
             /\ localStorage g' = localStorage fallen).
Proof.
  eexists. split; [vm_compute; reflexivity |].
  split; [vm_compute; reflexivity |].
  split; [vm_compute; reflexivity |].
  apply (@fall_ends_the_game decimalRuntime half fallen).
  - vm_compute; reflexivity.
  - vm_compute; reflexivity.
Defined.

(** ** C3 *)

(** C3, as worded, fails on a stored text that is not a number: the text
    itself becomes the high score, not zero. *)
Lemma load_highScore_counterexample :
  load_highScore (Some "abc"%string) = VString "abc"%string
  /\ load_highScore (Some "abc"%string) <> VNumber 0.
Proof. split; [reflexivity | discriminate]. Qed.

(** A high score that reads as [NaN] is never replaced at game over,
    whatever the score. *)
Lemma gameOver_unreadable `{Runtime} (g : Game) (s : string) :
  highScore g = VString s -> StringToNumber s = NaN ->
  highScore (gameOver g) = VString s
  /\ localStorage (gameOver g) = localStorage g.
Proof.
  intros Hh Hn. unfold gameOver, js_gt. rewrite Hh. simpl. rewrite Hn.
  simpl. split; reflexivity.
Qed.

(** C3, amended: the read yields zero when the key is absent or holds the
    empty text, and yields the stored text itself, unchanged, in every
    other case, numeric or not.  In the comparison [score > highScore] a
    text that the runtime reads as the integer [n] then behaves as [n];
    a text that the runtime reads as [NaN] makes the comparison false for
    every score, so that [gameOver] never replaces it, by zero or by a
    score. *)
Theorem load_highScore_reads `{Runtime} :
  load_highScore None = VNumber 0
  /\ load_highScore (Some EmptyString) = VNumber 0
  /\ (forall c s, load_highScore (Some (String c s)) = VString (String c s))
  /\ (forall c s n sc,
        StringToNumber (String c s) = Finite (inject_Z n) ->
        js_gt sc (load_highScore (Some (String c s))) = (n <? sc)%Z)
  /\ (forall c s sc,
        StringToNumber (String c s) = NaN ->
        js_gt sc (load_highScore (Some (String c s))) = false)
  /\ (forall c s g,
        StringToNumber (String c s) = NaN ->
        highScore g = load_highScore (Some (String c s)) ->
        highScore (gameOver g) = highScore g
        /\ localStorage (gameOver g) = localStorage g).
Proof.
  split; [reflexivity |]. split; [reflexivity |].
  split; [reflexivity |]. split; [| split].
  - intros c s n sc Hn. unfold js_gt. cbn [load_highScore ToNumber].
    rewrite Hn. exact (js_gt_VNumber sc n).
  - intros c s sc Hn. unfold js_gt. cbn [load_highScore ToNumber].
    rewrite Hn. reflexivity.
  - intros c s g Hn Hh. cbn [load_highScore] in Hh.
    destruct (gameOver_unreadable g (String c s) Hh Hn) as [H1 H2].
    rewrite H1, Hh. split; [reflexivity | exact H2].
Qed.

(** C3 on the stored texts "42" and "abc" under [decimalRuntime]: the first
    compares as 42, the second keeps every score from being recorded. *)
Lemma load_highScore_reads_witness :
  (forall sc,
      @js_gt decimalRuntime sc (load_highScore (Some "42"%string))
      = (42 <? sc)%Z)
  /\ (forall sc,
        @js_gt decimalRuntime sc (load_highScore (Some "abc"%string))
        = false).
Proof.
  split; intro sc.
  - exact (proj1 (proj2 (proj2 (proj2 (@load_highScore_reads decimalRuntime))))
             "4"%char "2"%string 42%Z sc eq_refl).
  - exact (proj1 (proj2 (proj2 (proj2 (proj2
             (@load_highScore_reads decimalRuntime)))))
             "a"%char "bc"%string sc eq_refl).
Defined.

(** ** C5 *)

(** C5, as worded, fails in three ways, each with the player at rest, no
    key held and the player falling after gravity.  On [high_bounce] the
    player bounces on the platform at 230, whose jump score is 37, but ends
    the move in the upper third, so the scroll of the same tick adds 15 and
    the score is 52.  On [two_bands] the platform at 430 is in the band, but
    the score is 16, from the platform before it in the list, and not 17.
    On [on_the_edge] the player's bottom edge is at the platform top, the
    closed end of the band as worded, and the tick does not bounce: the
    velocity is 5, not -15. *)
Lemma bounce_scenario_counterexample :
  (exists pf g',
      nth_error (platforms high_bounce) 4 = Some pf
      /\ Qltb 0 (Player.velocityY (moved no_keys (player high_bounce))) = true
      /\ in_band_as_worded (moved no_keys (player high_bounce)) pf = true
      /\ Z.max (score high_bounce) (jumpScore pf) = 37%Z
      /\ @updatePlayer decimalRuntime half high_bounce = Done g'
      /\ score g' = 52%Z)
  /\ (exists pf g',
         nth_error (platforms two_bands) 1 = Some pf
         /\ Qltb 0 (Player.velocityY (moved no_keys (player two_bands))) = true
         /\ in_band_as_worded (moved no_keys (player two_bands)) pf = true
         /\ Z.max (score two_bands) (jumpScore pf) = 17%Z
         /\ @updatePlayer decimalRuntime half two_bands = Done g'
         /\ score g' = 16%Z)
  /\ (exists pf g',
         nth_error (platforms on_the_edge) 0 = Some pf
         /\ Qltb 0 (Player.velocityY (moved no_keys (player on_the_edge)))
            = true
         /\ in_band_as_worded (moved no_keys (player on_the_edge)) pf = true
         /\ @updatePlayer decimalRuntime half on_the_edge = Done g'
         /\ Player.velocityY (player g') == 5
         /\ ~ Player.velocityY (player g') == jumpStrength).
Proof.
  split; [| split].
  - eexists. eexists. split; [reflexivity |].
    repeat split; vm_compute; reflexivity.
  - eexists. eexists. split; [reflexivity |].
    repeat split; vm_compute; reflexivity.
  - eexists. eexists. split; [reflexivity |].
    split; [vm_compute; reflexivity |].
    split; [vm_compute; reflexivity |].
    split; [vm_compute; reflexivity |].
    split; [vm_compute; reflexivity |].
    vm_compute. discriminate.
Qed.

(** C5, amended: when the player (of height 50) is falling after gravity
    and [pf] is the first platform in list order whose band it overlaps,
    the band being open at the platform top, the tick completes, leaves the
    vertical velocity at exactly the jump strength, -15, and leaves the
    score at the larger of the previous score and [pf]'s jump score, plus
    the 15 of the scroll when the move ended in the upper third of the
    canvas.  This holds for every input, in particular for a player at rest
    with no key held. *)
Theorem bounce_on_first_platform `{Runtime} (rand : Random) (g : Game)
    (pf : Platform.t) :
  let p1 := moved (keys g) (player g) in
  Player.height (player g) == 50 ->
  0 < Player.velocityY p1 ->
  find (overlaps p1) (platforms g) = Some pf ->
  exists g',
    updatePlayer rand g = Done g'
    /\ Player.velocityY (player g') = jumpStrength
    /\ score g'
       = (Z.max (score g) (jumpScore pf)
          + (if Qltb (Player.y p1) (canvas_height / 3) then 15 else 0))%Z.
Proof.
  intros p1 Hh Hfall Hfind.
  assert (Hc : collide p1 (score g) (platforms g)
               = (Player.set_jumping true
                    (Player.set_velocityY jumpStrength p1),
                  Z.max (score g) (jumpScore pf))).
  { unfold collide. rewrite (proj2 (Qltb_iff _ _) Hfall).
    rewrite fold_bounce_first by (apply Qltb_iff; exact Hfall).
    rewrite Hfind. reflexivity. }
  pose proof (updatePlayer_spec rand g) as Hspec. cbv zeta in Hspec.
  fold p1 in Hspec. rewrite Hc in Hspec. cbn [fst snd] in Hspec.
  set (p2 := Player.set_jumping true (Player.set_velocityY jumpStrength p1))
    in *.
  assert (Hs : scrolling p2 = Qltb (Player.y p1) (canvas_height / 3)).
  { unfold scrolling. simpl. apply andb_true_r. }
  destruct (Qltb (Player.y p1) (canvas_height / 3)) eqn:Hy.
  - apply Qltb_iff in Hy.
    assert (Hthird : canvas_height / 3 == 200) by reflexivity.
    rewrite Hthird in Hy.
    destruct (find_some _ _ Hfind) as [Hin Hov].
    unfold overlaps in Hov. rewrite !andb_true_iff, !Qltb_iff in Hov.
    destruct Hov as [[[_ _] Htop] _].
    unfold p1 in Htop at 2. rewrite moved_height in Htop.
    assert (Hne : scrolled (- Player.velocityY p2) (platforms g) <> []).
    { intro Hnil.
      assert (Hk : In (Platform.add_y (- Player.velocityY p2) pf)
                      (scrolled (- Player.velocityY p2) (platforms g))).
      { unfold scrolled. apply filter_In. split.
        - apply in_map. exact Hin.
        - apply Qltb_iff. simpl.
          unfold jumpStrength, canvas_height in *. lra. }
      rewrite Hnil in Hk. exact Hk. }
    destruct (scroll_nonempty rand p2 (platforms g)
                (Z.max (score g) (jumpScore pf)) Hs Hne) as (ps' & Hsc & _).
    rewrite Hsc in Hspec. destruct Hspec as (g' & Hu & Hp & Hscore & _).
    exists g'. split; [exact Hu |]. rewrite Hp, Hscore. split; reflexivity.
  - rewrite (scroll_idle rand p2 _ _ Hs) in Hspec.
    destruct Hspec as (g' & Hu & Hp & Hscore & _).
    exists g'. split; [exact Hu |]. rewrite Hp, Hscore. split; [reflexivity |].
    lia.
Qed.

(** C5 on a player at rest that falls at speed 5 onto the first platform
    of the initial ladder: the velocity becomes -15 and the score 5. *)
Lemma bounce_on_first_platform_witness :
  let g := game_of 0 (at_rest 205 500 4.5) (initPlatforms half) in
  exists pf g',
    find (overlaps (moved (keys g) (player g))) (platforms g) = Some pf
    /\ jumpScore pf = 5%Z
    /\ @updatePlayer decimalRuntime half g = Done g'
    /\ Player.velocityY (player g') = jumpStrength
    /\ score g' = 5%Z.
Proof.
  cbv zeta.
  assert (Hf : exists pf,
             find (overlaps (moved (keys (game_of 0 (at_rest 205 500 4.5)
                                            (initPlatforms half)))
                               (player (game_of 0 (at_rest 205 500 4.5)
                                          (initPlatforms half)))))
                  (platforms (game_of 0 (at_rest 205 500 4.5)
                                (initPlatforms half))) = Some pf
             /\ jumpScore pf = 5%Z)
    by (vm_compute; eexists; split; reflexivity).
  destruct Hf as (pf & Hf & Hj).
  destruct (@bounce_on_first_platform decimalRuntime half
              (game_of 0 (at_rest 205 500 4.5) (initPlatforms half)) pf)
    as (g' & Hu & Hv & Hs).
  - vm_compute; reflexivity.
  - vm_compute; reflexivity.
  - exact Hf.
  - exists pf, g'.
    split; [exact Hf |]. split; [exact Hj |].
    split; [exact Hu |]. split; [exact Hv |].
    rewrite Hs, Hj. vm_compute. reflexivity.
Defined.

(** * Further properties of the code *)

(** ** The tick and the end of the game *)

(** What a completed tick does to the running flag and to the high score:
    nothing while the player is on the canvas, [gameOver] once it is
    below. *)
Lemma updatePlayer_cases `{Runtime} (rand : Random) (g g' : Game) :
  updatePlayer rand g = Done g' ->
  (Player.y (player g') <= canvas_height
   /\ gameRunning g' = gameRunning g
   /\ highScore g' = highScore g
   /\ localStorage g' = localStorage g)
  \/ (canvas_height < Player.y (player g')
      /\ gameRunning g' = false
      /\ (js_gt (score g') (highScore g) = true
          /\ highScore g' = VNumber (score g')
          /\ localStorage g' = Some (Number_toString (score g'))
          \/ js_gt (score g') (highScore g) = false
             /\ highScore g' = highScore g
             /\ localStorage g' = localStorage g)).
Proof.
  unfold updatePlayer.
  destruct (collide (moved (keys g) (player g)) (score g) (platforms g))
    as [p2 sc2].
  destruct (scroll rand p2 (platforms g) sc2) as [[ps sc] | |];
    try discriminate.
  case_Qltb canvas_height (Player.y p2).
  - intros Heq. injection Heq as <-. right. unfold gameOver. simpl.
    destruct (js_gt sc (highScore g)) eqn:Hgt; simpl; rewrite ?Hgt;
      (split; [exact E |]); (split; [reflexivity |]);
      [left | right]; repeat split.
  - intros Heq. injection Heq as <-. left. simpl. repeat split. exact E.
Qed.

(** X3: a tick that leaves the player on the canvas ([y <= canvas_height])
    changes neither the running flag nor the high score nor the stored
    item. *)
Theorem tick_on_canvas_keeps_running `{Runtime} (rand : Random)
    (g g' : Game) :
  updatePlayer rand g = Done g' ->
  Player.y (player g') <= canvas_height ->
  gameRunning g' = gameRunning g
  /\ highScore g' = highScore g
  /\ localStorage g' = localStorage g.
Proof.
  intros Hu Hy.
  destruct (updatePlayer_cases rand g g' Hu) as [(_ & H1) | (Hlt & _)].
  - exact H1.
  - lra.
Qed.

Lemma tick_on_canvas_keeps_running_witness :
  exists g',
    @updatePlayer decimalRuntime half (loaded (Some "12"%string) half)
    = Done g'
    /\ gameRunning g' = true
    /\ highScore g' = VString "12"%string
    /\ localStorage g' = Some "12"%string.
Proof.
  assert (Hu : exists g',
             @updatePlayer decimalRuntime half
               (loaded (Some "12"%string) half) = Done g'
             /\ Player.y (player g') <= canvas_height).
  { eexists. split; [vm_compute; reflexivity | vm_compute; discriminate]. }
  destruct Hu as (g' & Hu & Hy). exists g'. split; [exact Hu |].
  destruct (@tick_on_canvas_keeps_running decimalRuntime half _ g' Hu Hy)
    as (H1 & H2 & H3).
  rewrite H1, H2, H3. repeat split.
Defined.

(** X2: once the game is over, frames and key events do nothing but move
    the key flags: without a restart the game stays over and the score, the
    player, the platforms, the high score and the stored item stay as they
    are, and every such event completes. *)
Theorem game_over_is_final `{Runtime} (es : list Event) (g : Game) :
  existsb is_restart es = false ->
  gameRunning g = false ->
  exists g',
    run g es = Done g'
    /\ gameRunning g' = false
    /\ score g' = score g
    /\ player g' = player g
    /\ platforms g' = platforms g
    /\ highScore g' = highScore g
    /\ localStorage g' = localStorage g.
Proof.
  revert g. induction es as [| e es IH]; intros g Hnr Hover.
  - exists g. repeat split. exact Hover.
  - cbn [existsb] in Hnr. apply orb_false_iff in Hnr.
    destruct Hnr as [He Hes]. cbn [run].
    assert (Hstep : exists g1,
               step g e = Done g1 /\ gameRunning g1 = false
               /\ score g1 = score g /\ player g1 = player g
               /\ platforms g1 = platforms g /\ highScore g1 = highScore g
               /\ localStorage g1 = localStorage g).
    { destruct e as [k | k | rand | rand]; try discriminate.
      - rewrite step_Press. eexists. split; [reflexivity |].
        repeat split. exact Hover.
      - rewrite step_Release. eexists. split; [reflexivity |].
        repeat split. exact Hover.
      - rewrite step_Frame. unfold gameLoop. rewrite Hover. cbn [negb].
        exists g. repeat split. exact Hover. }
    destruct Hstep as (g1 & Hs & Hr & H1 & H2 & H3 & H4 & H5).
    rewrite Hs.
    destruct (IH g1 Hes Hr) as (g' & Hrun & Hr' & H1' & H2' & H3' & H4' & H5').
    exists g'. split; [exact Hrun |].
    repeat split; congruence.
Qed.

Lemma game_over_is_final_witness :
  exists g0 g',
    @updatePlayer decimalRuntime half fallen = Done g0
    /\ @run decimalRuntime g0
         [Frame half; Press ArrowLeft; Frame half; Release ArrowLeft]
       = Done g'
    /\ gameRunning g' = false
    /\ score g' = score g0
    /\ player g' = player g0
    /\ platforms g' = platforms g0
    /\ highScore g' = highScore g0
    /\ localStorage g' = localStorage g0.
Proof.
  assert (Hu : exists g0,
             @updatePlayer decimalRuntime half fallen = Done g0
             /\ gameRunning g0 = false).
  { eexists. split; vm_compute; reflexivity. }
  destruct Hu as (g0 & Hu & Hover).
  destruct (@game_over_is_final decimalRuntime
              [Frame half; Press ArrowLeft; Frame half; Release ArrowLeft]
              g0 eq_refl Hover) as (g' & Hrun & Hrest).
  exists g0, g'. split; [exact Hu |]. split; [exact Hrun | exact Hrest].
Defined.

(** ** The vertical move *)

Lemma moved_y (k : Keys.t) (p : Player.t) :
  Player.y (moved k p)
  = Player.y p + (Player.velocityY p + gravity).
Proof.
  unfold moved, fall; simpl. rewrite wrap_y, wrap_velocityY. reflexivity.
Qed.

(** X8: every completed tick advances the player's [y] by its velocity
    after gravity, and by nothing else: neither a bounce nor the camera
    scroll moves the player. *)
Theorem tick_moves_player `{Runtime} (rand : Random) (g g' : Game) :
  updatePlayer rand g = Done g' ->
  Player.y (player g')
  = Player.y (player g) + (Player.velocityY (player g) + gravity).
Proof.
  intro Hu. destruct (updatePlayer_Done rand g g' Hu) as (_ & Hp & _).
  destruct (collide_same_place (moved (keys g) (player g)) (score g)
              (platforms g)) as (_ & Hy & _).
  rewrite Hp, Hy. apply moved_y.
Qed.

Lemma tick_moves_player_witness :
  exists g',
    @updatePlayer decimalRuntime half high_bounce = Done g'
    /\ Player.velocityY (player g') == jumpStrength
    /\ Player.y (player g')
       = Player.y (player high_bounce)
         + (Player.velocityY (player high_bounce) + gravity).
Proof.
  assert (Hu : exists g',
             @updatePlayer decimalRuntime half high_bounce = Done g'
             /\ Player.velocityY (player g') == jumpStrength).
  { eexists. split; vm_compute; reflexivity. }
  destruct Hu as (g' & Hu & Hv). exists g'.
  split; [exact Hu |]. split; [exact Hv |].
  exact (@tick_moves_player decimalRuntime half high_bounce g' Hu).
Defined.

(** ** Invariants of the running game, continued *)

(** As [reachable_inv], with the facts that a reset starts from a reachable
    state and that a tick only runs while the game is running. *)
Lemma reachable_inv_running `{Runtime} (I : Game -> Prop) :
  (forall stored rand, I (loaded stored rand)) ->
  (forall rand g, I g -> I (reset rand g)) ->
  (forall k b g, I g -> I (set_key k b g)) ->
  (forall rand g g',
      I g -> gameRunning g = true -> updatePlayer rand g = Done g' -> I g') ->
  forall g, reachable g -> I g.
Proof.
  intros Hload Hreset Hkey Htick g Hreach.
  induction Hreach as [stored rand g Hb | g e g' _ IH Hs].
  - rewrite boot_tick in Hb.
    eapply Htick; [apply Hload | reflexivity | exact Hb].
  - destruct e as [k | k | rand | rand].
    + rewrite step_Press in Hs. injection Hs as <-. apply Hkey, IH.
    + rewrite step_Release in Hs. injection Hs as <-. apply Hkey, IH.
    + rewrite step_Frame in Hs. unfold gameLoop in Hs.
      destruct (gameRunning g) eqn:Hr.
      * eapply Htick; [exact IH | exact Hr | exact Hs].
      * injection Hs as <-. exact IH.
    + rewrite step_Restart in Hs.
      eapply Htick; [apply Hreset, IH | apply gameRunning_reset | exact Hs].
Qed.

(** X11: in every reachable state in which the game is over, the score does
    not compare greater than the high score: [gameOver] has recorded it if
    it did. *)
Theorem final_score_within_highScore `{Runtime} (g : Game) :
  reachable g ->
  gameRunning g = false ->
  js_gt (score g) (highScore g) = false.
Proof.
  intro Hreach. revert g Hreach.
  apply (reachable_inv_running
           (fun g => gameRunning g = false
                     -> js_gt (score g) (highScore g) = false)).
  - intros stored rand Hr. discriminate Hr.
  - intros rand g _ Hr. discriminate Hr.
  - intros k b g Hg Hr. exact (Hg Hr).
  - intros rand g g' _ Hrun Hu Hover.
    destruct (updatePlayer_cases rand g g' Hu)
      as [(_ & Hr & _) | (_ & _ & [(_ & Hh & _) | (Hgt & Hh & _)])].
    + congruence.
    + rewrite Hh, js_gt_VNumber. apply Z.ltb_irrefl.
    + rewrite Hh. exact Hgt.
Qed.

(** X11 on the state reached by holding the left arrow from start-up: the
    player walks off the first platform and falls below the canvas. *)
Lemma final_score_within_highScore_witness :
  exists g,
    @play decimalRuntime None half (Press ArrowLeft :: frames 30) = Done g
    /\ gameRunning g = false
    /\ @js_gt decimalRuntime (score g) (highScore g) = false.
Proof.
  assert (Hp : exists g,
             @play decimalRuntime None half (Press ArrowLeft :: frames 30)
             = Done g /\ gameRunning g = false).
  { eexists. split; vm_compute; reflexivity. }
  destruct Hp as (g & Hp & Hover). exists g.
  split; [exact Hp |]. split; [exact Hover |].
  apply (@final_score_within_highScore decimalRuntime g); [| exact Hover].
  exact (@reachable_play decimalRuntime None half _ g Hp).
Defined.

Lemma step_highScore `{Runtime} (g : Game) (e : Event) (g' : Game) :
  step g e = Done g' ->
  (highScore g' = highScore g /\ localStorage g' = localStorage g)
  \/ exists sc, js_gt sc (highScore g) = true
                /\ highScore g' = VNumber sc
                /\ localStorage g' = Some (Number_toString sc).
Proof.
  assert (Htick : forall rand g0,
             highScore g0 = highScore g -> localStorage g0 = localStorage g ->
             updatePlayer rand g0 = Done g' ->
             (highScore g' = highScore g /\ localStorage g' = localStorage g)
             \/ exists sc, js_gt sc (highScore g) = true
                           /\ highScore g' = VNumber sc
                           /\ localStorage g' = Some (Number_toString sc)).
  { intros rand g0 Hh Hl Hu.
    destruct (updatePlayer_cases rand g0 g' Hu)
      as [(_ & _ & H1 & H2)
         | (_ & _ & [(Hgt & H1 & H2) | (_ & H1 & H2)])].
    - left. split; congruence.
    - right. exists (score g'). rewrite <- Hh. auto.
    - left. split; congruence. }
  destruct e as [k | k | rand | rand].
  - rewrite step_Press. intro Hs. injection Hs as <-. left. split; reflexivity.
  - rewrite step_Release. intro Hs. injection Hs as <-.
    left. split; reflexivity.
  - rewrite step_Frame. unfold gameLoop. destruct (gameRunning g).
    + apply Htick; reflexivity.
    + intro Hs. injection Hs as <-. left. split; reflexivity.
  - rewrite step_Restart. apply Htick; reflexivity.
Qed.

(** X4: a numeric high score stays numeric and never decreases, along any
    sequence of events, restarts included. *)
Theorem highScore_never_decreases `{Runtime} (es : list Event)
    (g g' : Game) (h : Z) :
  highScore g = VNumber h ->
  run g es = Done g' ->
  exists h', highScore g' = VNumber h' /\ (h <= h')%Z.
Proof.
  revert g h. induction es as [| e es IH]; intros g h Hh; cbn [run].
  - intro Heq. injection Heq as <-. exists h. split; [exact Hh | lia].
  - destruct (step g e) as [g1 | |] eqn:Hs; try discriminate.
    intro Hrun.
    destruct (step_highScore g e g1 Hs) as [[H1 _] | (sc & Hgt & H1 & _)].
    + apply (IH g1 h); congruence.
    + rewrite Hh, js_gt_VNumber in Hgt. apply Z.ltb_lt in Hgt.
      destruct (IH g1 sc H1 Hrun) as (h' & Hh' & Hle).
      exists h'. split; [exact Hh' | lia].
Qed.

(** X4 over a fall that records 7 over a high score of 3, followed by a
    restart. *)
Lemma highScore_never_decreases_witness :
  exists g',
    @run decimalRuntime fallen [Frame half; Restart half; Frame half]
    = Done g'
    /\ gameRunning g' = true
    /\ exists h', highScore g' = VNumber h' /\ (3 <= h')%Z.
Proof.
  assert (Hr : exists g',
             @run decimalRuntime fallen [Frame half; Restart half; Frame half]
             = Done g' /\ gameRunning g' = true).
  { eexists. split; vm_compute; reflexivity. }
  destruct Hr as (g' & Hr & Hrun). exists g'.
  split; [exact Hr |]. split; [exact Hrun |].
  exact (@highScore_never_decreases decimalRuntime _ fallen g' 3 eq_refl Hr).
Defined.

(** ** The high score and the store *)

(** X12: in every reachable state the high score variable agrees with the
    stored item. *)
Theorem highScore_synced `{Runtime} (g : Game) : reachable g -> synced g.
Proof.
  intro Hreach. induction Hreach as [stored rand g Hb | g e g' _ IH Hs].
  - rewrite boot_tick in Hb.
    destruct (updatePlayer_cases _ _ _ Hb)
      as [(_ & _ & H1 & H2)
         | (_ & _ & [(_ & H1 & H2) | (_ & H1 & H2)])].
    + left. rewrite H1, H2. reflexivity.
    + right. exists (score g). split; assumption.
    + left. rewrite H1, H2. reflexivity.
  - destruct (step_highScore g e g' Hs) as [[H1 H2] | (sc & _ & H1 & H2)].
    + unfold synced. rewrite H1, H2. exact IH.
    + right. exists sc. split; assumption.
Qed.

Lemma highScore_synced_witness :
  exists g,
    @play decimalRuntime (Some "12"%string) half (frames 13) = Done g
    /\ highScore g = VString "12"%string
    /\ synced g.
Proof.
  assert (Hp : exists g,
             @play decimalRuntime (Some "12"%string) half (frames 13) = Done g
             /\ highScore g = VString "12"%string).
  { eexists. split; vm_compute; reflexivity. }
  destruct Hp as (g & Hp & Hh). exists g.
  split; [exact Hp |]. split; [exact Hh |].
  apply (@highScore_synced decimalRuntime g).
  exact (@reachable_play decimalRuntime _ half _ g Hp).
Defined.

(** The decimal text of a number is never empty. *)
Lemma Number_toString_nonempty (n : Z) :
  exists c s, Number_toString n = String c s.
Proof.
  unfold Number_toString.
  destruct (Z.to_int n) as [d | d]; destruct d; simpl;
    eexists; eexists; reflexivity.
Qed.

(** X5: when [gameOver] records a score, a later start-up that finds the
    stored item takes its text as the high score; under a runtime that
    reads that text back as the number it spells, the reloaded high score
    compares exactly as the recorded score does. *)
Theorem recorded_score_reloads `{Runtime} (g : Game) (rand : Random) :
  js_gt (score g) (highScore g) = true ->
  StringToNumber (Number_toString (score g)) = Finite (inject_Z (score g)) ->
  let g' := loaded (localStorage (gameOver g)) rand in
  highScore g' = VString (Number_toString (score g))
  /\ forall sc, js_gt sc (highScore g') = (score g <? sc)%Z.
Proof.
  intros Hgt Hread g'.
  assert (Hst : localStorage (gameOver g)
                = Some (Number_toString (score g))).
  { unfold gameOver. rewrite Hgt. reflexivity. }
  assert (Hh : highScore g' = VString (Number_toString (score g))).
  { unfold g', loaded. cbn [highScore]. rewrite Hst.
    destruct (Number_toString_nonempty (score g)) as (c & s & ->).
    reflexivity. }
  split; [exact Hh |].
  intro sc. rewrite Hh. unfold js_gt. cbn [ToNumber]. rewrite Hread.
  exact (js_gt_VNumber sc (score g)).
Qed.

Lemma recorded_score_reloads_witness :
  let g := game_of 7 (at_rest 205 601 10) (initPlatforms half) in
  let g' := loaded (localStorage (@gameOver decimalRuntime g)) half in
  highScore g' = VString "7"%string
  /\ forall sc, @js_gt decimalRuntime sc (highScore g') = (7 <? sc)%Z.
Proof.
  cbv zeta.
  apply (@recorded_score_reloads decimalRuntime
           (game_of 7 (at_rest 205 601 10) (initPlatforms half)) half).
  - vm_compute; reflexivity.
  - vm_compute; reflexivity.
Defined.

(** ** Steering *)

(** The clamp on line 111. *)
Lemma clamp_cases (v : Q) :
  let c := Qmax (- maxVelocityX) (Qmin maxVelocityX v) in
  (v < - maxVelocityX /\ c == - maxVelocityX)
  \/ (- maxVelocityX <= v <= maxVelocityX /\ c == v)
  \/ (maxVelocityX < v /\ c == maxVelocityX).
Proof.
  cbv zeta. unfold maxVelocityX.
  destruct (Q.min_spec 8 v) as [[H1 E1] | [H1 E1]];
    destruct (Q.max_spec (- (8)) (Qmin 8 v)) as [[H2 E2] | [H2 E2]];
    rewrite E1 in *.
  - right; right. split; [exact H1 | rewrite E2; reflexivity].
  - exfalso. lra.
  - right; left. split; [lra | rewrite E2; reflexivity].
  - destruct (Qlt_le_dec v (- (8))) as [Hlt | Hge].
    + left. split; [exact Hlt | rewrite E2; reflexivity].
    + right; left. split; [lra | rewrite E2; lra].
Qed.

Lemma steer_velocityX (k : Keys.t) (p : Player.t) :
  Player.velocityX (steer k p)
  = Qmax (- maxVelocityX)
         (Qmin maxVelocityX
               (if Keys.left k then - moveSpeed
                else if Keys.right k then moveSpeed
                else Player.velocityX p * 0.8)).
Proof. reflexivity. Qed.

(** X7: the horizontal velocity a completed tick leaves.  With the left
    key held it is [- moveSpeed], whether or not the right key is held too;
    with the right key alone it is [moveSpeed]; with no key it keeps the
    sign of the previous velocity and does not grow in magnitude.  (The
    damped value itself is not stated: the program rounds the product by
    0.8 to a double.) *)
Theorem tick_steering `{Runtime} (rand : Random) (g g' : Game) :
  updatePlayer rand g = Done g' ->
  let vx := Player.velocityX (player g) in
  let vx' := Player.velocityX (player g') in
  (Keys.left (keys g) = true -> vx' == - moveSpeed)
  /\ (Keys.left (keys g) = false -> Keys.right (keys g) = true ->
      vx' == moveSpeed)
  /\ (Keys.left (keys g) = false -> Keys.right (keys g) = false ->
      (0 <= vx -> 0 <= vx' <= vx) /\ (vx <= 0 -> vx <= vx' <= 0)).
Proof.
  intros Hu vx vx'.
  assert (Hv : vx' = Player.velocityX (steer (keys g) (player g)))
    by (apply (updatePlayer_velocityX rand g g' Hu)).
  rewrite steer_velocityX in Hv. fold vx in Hv.
  split; [| split].
  - intro Hl. rewrite Hl in Hv. rewrite Hv.
    destruct (clamp_cases (- moveSpeed)) as [[H1 _] | [[_ E] | [H1 _]]];
      [| exact E |]; exfalso; unfold maxVelocityX, moveSpeed in H1; lra.
  - intros Hl Hr. rewrite Hl, Hr in Hv. rewrite Hv.
    destruct (clamp_cases moveSpeed) as [[H1 _] | [[_ E] | [H1 _]]];
      [| exact E |]; exfalso; unfold maxVelocityX, moveSpeed in H1; lra.
  - intros Hl Hr. rewrite Hl, Hr in Hv; clear Hl Hr. rewrite Hv.
    destruct (clamp_cases (vx * 0.8)) as [[H1 E] | [[H1 E] | [H1 E]]];
      rewrite E; unfold maxVelocityX in *; split; intros; lra.
Qed.

(** X7 with both keys held: the player moves left. *)
Lemma tick_steering_witness :
  let g := set_key ArrowRight true (set_key ArrowLeft true high_bounce) in
  exists g',
    @updatePlayer decimalRuntime half g = Done g'
    /\ Keys.left (keys g) = true /\ Keys.right (keys g) = true
    /\ Player.velocityX (player g') == - moveSpeed.
Proof.
  cbv zeta.
  assert (Hu : exists g',
             @updatePlayer decimalRuntime half
               (set_key ArrowRight true (set_key ArrowLeft true high_bounce))
             = Done g').
  { eexists. vm_compute; reflexivity. }
  destruct Hu as (g' & Hu). exists g'.
  split; [exact Hu |]. split; [reflexivity |]. split; [reflexivity |].
  exact (proj1 (@tick_steering decimalRuntime half _ g' Hu) eq_refl).
Defined.

(** ** What a tick does to the platforms *)

Lemma replenish_full (fuel : nat) (rand : Random) (k : nat)
    (ps : list Platform.t) :
  (10 <= length ps)%nat -> replenish fuel rand k ps = Done ps.
Proof.
  intro Hlen. apply Nat.ltb_ge in Hlen.
  destruct fuel; cbn [replenish]; rewrite Hlen; reflexivity.
Qed.

Lemma replenish_one (fuel : nat) (rand : Random) (k : nat)
    (ps : list Platform.t) (lp : Platform.t) :
  length ps = 9%nat -> lastPlatform ps = Some lp ->
  replenish (S fuel) rand k ps = Done (ps ++ [spawn (rand k) lp]).
Proof.
  intros Hlen Hlast. cbn [replenish]. rewrite Hlen, Hlast. cbn [Nat.ltb Nat.leb].
  apply replenish_full. rewrite length_app, Hlen. cbn [length]. lia.
Qed.

(** X9: what a completed tick leaves of the platforms of a reachable state.
    Without a scroll they are untouched.  With a scroll at speed [d] every
    platform has moved down by [d], and either all ten are kept, or the
    first one, now at or below the margin [canvas_height + 50], has been
    dropped and one platform has been spawned at the end of the list,
    [platformGap] above the last, from the first draw of [Math.random()]. *)
Theorem platforms_after_tick `{Runtime} (rand : Random) (g g' : Game) :
  reachable g ->
  updatePlayer rand g = Done g' ->
  let d := - Player.velocityY (bounced g) in
  let moved_down := map (Platform.add_y d) (platforms g) in
  (scrolling (bounced g) = false /\ platforms g' = platforms g)
  \/ (scrolling (bounced g) = true /\ platforms g' = moved_down)
  \/ (scrolling (bounced g) = true
      /\ exists a l lp,
           moved_down = a :: l
           /\ canvas_height + 50 <= Platform.y a
           /\ lastPlatform l = Some lp
           /\ platforms g' = l ++ [spawn (rand 0%nat) lp]).
Proof.
  intros Hreach Hu d moved_down.
  destruct (reachable_Inv g Hreach) as [Hvy [Hlen (y0 & Hy0 & Hlad)]].
  pose proof (collide_velocityY_floor (keys g) (player g) (score g)
                (platforms g) Hvy) as Hvy2.
  destruct (updatePlayer_Done rand g g' Hu) as (Hscroll & _).
  fold (bounced g) in Hscroll, Hvy2.
  destruct (scrolling (bounced g)) eqn:Hs.
  2:{ left. rewrite scroll_idle in Hscroll by exact Hs.
      split; [reflexivity | congruence]. }
  right.
  pose proof Hs as Hneg. apply scrolling_iff in Hneg. destruct Hneg as [_ Hneg].
  fold d in moved_down.
  assert (Hd : 0 < d <= 15) by (unfold d, jumpStrength in *; lra).
  unfold scroll in Hscroll. rewrite Hs in Hscroll. fold d in Hscroll.
  destruct (platforms g) as [| a l] eqn:Hps; [discriminate |].
  assert (Hl : length l = 9%nat) by (simpl in Hlen; lia).
  pose proof (ladder_add_y d _ _ Hlad) as Hshift. cbn [map] in Hshift.
  destruct (ladder_filter (canvas_height + 50) _ _ _ Hshift)
    as [[Hlt Hk] | [Hge Hk]].
  { unfold platformGap. lra. }
  - left. split; [reflexivity |].
    unfold scrolled in Hscroll. cbn [map] in Hscroll. rewrite Hk in Hscroll.
    rewrite replenish_full in Hscroll
      by (cbn [length]; rewrite length_map; lia).
    unfold moved_down. cbn [map]. congruence.
  - right. split; [reflexivity |].
    unfold scrolled in Hscroll. cbn [map] in Hscroll. rewrite Hk in Hscroll.
    destruct (lastPlatform_Some (map (Platform.add_y d) l))
      as (lp & Hlast & _).
    { destruct l; [discriminate Hl | discriminate]. }
    rewrite (replenish_one 9 rand 0 _ lp) in Hscroll
      by (rewrite ?length_map; assumption).
    exists (Platform.add_y d a), (map (Platform.add_y d) l), lp.
    split; [reflexivity |].
    split; [destruct Hshift as [Ha _]; lra |].
    split; [exact Hlast | congruence].
Qed.

(** X9 at the state reached by 61 frames after start-up, whose next tick
    drops the lowest platform. *)
Lemma platforms_after_tick_witness :
  exists g g',
    @play decimalRuntime None half (frames 61) = Done g
    /\ @updatePlayer decimalRuntime half g = Done g'
    /\ map Platform.y (platforms g')
       <> map Platform.y (map (Platform.add_y
                                 (- Player.velocityY (bounced g)))
                              (platforms g))
    /\ (let d := - Player.velocityY (bounced g) in
        let moved_down := map (Platform.add_y d) (platforms g) in
        (scrolling (bounced g) = false /\ platforms g' = platforms g)
        \/ (scrolling (bounced g) = true /\ platforms g' = moved_down)
        \/ (scrolling (bounced g) = true
            /\ exists a l lp,
                 moved_down = a :: l
                 /\ canvas_height + 50 <= Platform.y a
                 /\ lastPlatform l = Some lp
                 /\ platforms g' = l ++ [spawn (half 0%nat) lp])).
Proof.
  assert (Hp : exists g g',
             @play decimalRuntime None half (frames 61) = Done g
             /\ @updatePlayer decimalRuntime half g = Done g'
             /\ map Platform.y (platforms g')
                <> map Platform.y
                     (map (Platform.add_y (- Player.velocityY (bounced g)))
                          (platforms g))).
  { eexists. eexists. split; [vm_compute; reflexivity |].
    split; [vm_compute; reflexivity | vm_compute; discriminate]. }
  destruct Hp as (g & g' & Hp & Hu & Hne). exists g, g'.
  split; [exact Hp |]. split; [exact Hu |]. split; [exact Hne |].
  apply (@platforms_after_tick decimalRuntime half g g');
    [exact (@reachable_play decimalRuntime None half _ g Hp) | exact Hu].
Defined.

(** ** Sizes *)

Lemma replenish_Forall (P : Platform.t -> Prop) (rand : Random) :
  (forall k lp, P (spawn (rand k) lp)) ->
  forall fuel k ps ps',
    Forall P ps -> replenish fuel rand k ps = Done ps' -> Forall P ps'.
Proof.
  intros Hspawn fuel.
  induction fuel as [| fuel IH]; intros k ps ps' HP; cbn [replenish];
    destruct (length ps <? 10)%nat; try discriminate;
    try (intro Heq; injection Heq as <-; exact HP).
  destruct (lastPlatform ps) as [lp |]; [| discriminate].
  apply IH. apply Forall_app. split; [exact HP |].
  constructor; [apply Hspawn | constructor].
Qed.

Lemma scroll_Forall (P : Platform.t -> Prop) (rand : Random) (p : Player.t)
    (ps ps' : list Platform.t) (sc sc' : Z) :
  (forall d pf, P pf -> P (Platform.add_y d pf)) ->
  (forall k lp, P (spawn (rand k) lp)) ->
  Forall P ps -> scroll rand p ps sc = Done (ps', sc') -> Forall P ps'.
Proof.
  intros Hadd Hspawn HP. unfold scroll. destruct (scrolling p).
  - destruct (replenish 10 rand 0 _) as [ps1 | |] eqn:Hr; try discriminate.
    intro Heq. assert (ps1 = ps') by congruence. subst ps1.
    eapply (replenish_Forall P rand Hspawn); [| exact Hr].
    unfold scrolled.
    apply incl_Forall
      with (l1 := map (Platform.add_y (- Player.velocityY p)) ps).
    + intros pf Hin. apply filter_In in Hin. apply Hin.
    + apply Forall_map. eapply Forall_impl; [| exact HP].
      intros pf Hpf. apply Hadd. exact Hpf.
  - intro Heq. assert (ps = ps') by congruence. subst ps'. exact HP.
Qed.

Lemma standard_initPlatforms (rand : Random) :
  Forall standard (initPlatforms rand).
Proof. unfold initPlatforms. simpl. repeat constructor. Qed.

Lemma reachable_sizes `{Runtime} (g : Game) :
  reachable g ->
  Player.width (player g) = 50
  /\ Player.height (player g) = 50
  /\ Forall standard (platforms g).
Proof.
  intro Hreach. revert g Hreach.
  apply (reachable_inv_running
           (fun g => Player.width (player g) = 50
                     /\ Player.height (player g) = 50
                     /\ Forall standard (platforms g))).
  - intros stored rand. repeat split. apply standard_initPlatforms.
  - intros rand g (Hw & Hh & _). repeat split; try assumption.
    apply standard_initPlatforms.
  - intros k b g Hg. exact Hg.
  - intros rand g g' (Hw & Hh & Hst) _ Hu.
    destruct (updatePlayer_Done rand g g' Hu) as (Hscroll & Hp & _).
    destruct (collide_same_place (moved (keys g) (player g)) (score g)
                (platforms g)) as (_ & _ & Hw2 & Hh2 & _).
    rewrite Hp, Hw2, Hh2.
    unfold moved, fall. cbn [Player.width Player.height Player.set_y
                              Player.set_velocityY].
    rewrite wrap_width, wrap_height.
    repeat split; try assumption.
    eapply (scroll_Forall standard); [| | exact Hst | exact Hscroll].
    + intros d pf Hpf. exact Hpf.
    + intros r lp. split; reflexivity.
Qed.

(** X13: in every reachable state the player is 50 by 50 and every platform
    is [platformWidth] by [platformHeight]: no event writes a size. *)
Theorem sizes_never_change `{Runtime} (g : Game) :
  reachable g ->
  Player.width (player g) = 50
  /\ Player.height (player g) = 50
  /\ Forall standard (platforms g).
Proof. apply reachable_sizes. Qed.

Lemma sizes_never_change_witness :
  exists g,
    @play decimalRuntime None half (frames 61 ++ [Restart half]) = Done g
    /\ Player.width (player g) = 50
    /\ Player.height (player g) = 50
    /\ Forall standard (platforms g).
Proof.
  assert (Hp : exists g,
             @play decimalRuntime None half (frames 61 ++ [Restart half])
             = Done g).
  { eexists. vm_compute; reflexivity. }
  destruct Hp as (g & Hp). exists g. split; [exact Hp |].
  apply (@sizes_never_change decimalRuntime g).
  exact (@reachable_play decimalRuntime None half _ g Hp).
Defined.

(** ** Collision bands in reachable states *)

Lemma ladder_nth (ps : list Platform.t) (y0 : Q) (i : nat) (a : Platform.t) :
  ladder_from y0 ps -> nth_error ps i = Some a ->
  Platform.y a == y0 - inject_Z (Z.of_nat i) * platformGap.
Proof.
  revert y0 i. induction ps as [| b l IH]; intros y0 i Hlad Hn.
  - destruct i; discriminate.
  - destruct Hlad as [Hb Hl]. destruct i as [| i].
    + injection Hn as <-. rewrite Hb. cbn [Z.of_nat].
      change (inject_Z 0) with 0. lra.
    + cbn [nth_error] in Hn. rewrite (IH _ _ Hl Hn).
      rewrite Nat2Z.inj_succ, <- Z.add_1_r, inject_Z_plus.
      change (inject_Z 1) with 1. unfold platformGap. lra.
Qed.

(** The vertical part of the collision test. *)
Lemma overlaps_band (p : Player.t) (pf : Platform.t) :
  overlaps p pf = true ->
  Platform.y pf < Player.y p + Player.height p
  /\ Player.y p + Player.height p
     < Platform.y pf + Platform.height pf + 15.
Proof.
  unfold overlaps. rewrite !andb_true_iff, !Qltb_iff. tauto.
Qed.

Lemma reachable_bands `{Runtime} (g : Game) (p : Player.t)
    (i j : nat) (a b : Platform.t) :
  reachable g ->
  nth_error (platforms g) i = Some a ->
  nth_error (platforms g) j = Some b ->
  overlaps p a = true ->
  overlaps p b = true ->
  i = j.
Proof.
  intros Hreach Ha Hb Hoa Hob.
  destruct (reachable_Inv g Hreach) as [_ [_ (y0 & _ & Hlad)]].
  destruct (reachable_sizes g Hreach) as (_ & _ & Hst).
  rewrite Forall_forall in Hst.
  destruct (Hst a (nth_error_In _ _ Ha)) as [_ Hha].
  destruct (Hst b (nth_error_In _ _ Hb)) as [_ Hhb].
  apply overlaps_band in Hoa. apply overlaps_band in Hob.
  rewrite Hha in Hoa. rewrite Hhb in Hob.
  rewrite (ladder_nth _ _ _ _ Hlad Ha) in Hoa.
  rewrite (ladder_nth _ _ _ _ Hlad Hb) in Hob.
  unfold platformGap, platformHeight in *.
  destruct (Nat.lt_trichotomy i j) as [Hlt | [Heq | Hgt]]; [| exact Heq |];
    exfalso.
  - assert (Hz : inject_Z (Z.of_nat i) + 1 <= inject_Z (Z.of_nat j)).
    { change 1 with (inject_Z 1). rewrite <- inject_Z_plus, <- Zle_Qle. lia. }
    lra.
  - assert (Hz : inject_Z (Z.of_nat j) + 1 <= inject_Z (Z.of_nat i)).
    { change 1 with (inject_Z 1). rewrite <- inject_Z_plus, <- Zle_Qle. lia. }
    lra.
Qed.

(** X10: in a reachable state a player, wherever it stands, overlaps the
    collision band of at most one platform: the bands are 30 high and the
    platforms 80 apart. *)
Theorem bands_are_disjoint `{Runtime} (g : Game) (p : Player.t)
    (i j : nat) (a b : Platform.t) :
  reachable g ->
  nth_error (platforms g) i = Some a ->
  nth_error (platforms g) j = Some b ->
  overlaps p a = true ->
  overlaps p b = true ->
  i = j /\ a = b.
Proof.
  intros Hreach Ha Hb Hoa Hob.
  assert (Hij : i = j) by (eapply reachable_bands; eassumption).
  split; [exact Hij | congruence].
Qed.

(** X10 at start-up, for a player whose bottom edge is 10 below the top of
    the first platform. *)
Lemma bands_are_disjoint_witness :
  exists g a,
    @boot decimalRuntime None half = Done g
    /\ nth_error (platforms g) 0 = Some a
    /\ overlaps (at_rest 205 510 5) a = true
    /\ (0 = 0)%nat /\ a = a.
Proof.
  assert (Hb : exists g a,
             @boot decimalRuntime None half = Done g
             /\ nth_error (platforms g) 0 = Some a
             /\ overlaps (at_rest 205 510 5) a = true).
  { eexists. eexists. split; [vm_compute; reflexivity |].
    split; [reflexivity | vm_compute; reflexivity]. }
  destruct Hb as (g & a & Hb & Hn & Ho). exists g, a.
  split; [exact Hb |]. split; [exact Hn |]. split; [exact Ho |].
  apply (@bands_are_disjoint decimalRuntime g (at_rest 205 510 5)
           0%nat 0%nat a a);
    [eapply reachable_boot; exact Hb | exact Hn | exact Hn | exact Ho
    | exact Ho].
Defined.

(** ** Ticks with and without contact *)

Lemma find_all_false (A : Type) (f : A -> bool) (l : list A) :
  (forall a, In a l -> f a = false) -> find f l = None.
Proof.
  induction l as [| a l IH]; intro Hf; [reflexivity |]. cbn [find].
  rewrite (Hf a (or_introl eq_refl)). apply IH.
  intros b Hb. apply Hf. right. exact Hb.
Qed.

Lemma collide_clear (p : Player.t) (sc : Z) (ps : list Platform.t) :
  (forall pf, In pf ps -> overlaps p pf = false) ->
  collide p sc ps = (p, sc).
Proof.
  intro Hno. unfold collide.
  destruct (Qltb 0 (Player.velocityY p)) eqn:E; [| reflexivity].
  rewrite fold_bounce_first by exact E.
  rewrite find_all_false by exact Hno. reflexivity.
Qed.

Lemma initPlatforms_clear (rand : Random) (p : Player.t) :
  500 <= Player.y p + Player.height p <= 550 ->
  forall pf, In pf (initPlatforms rand) -> overlaps p pf = false.
Proof.
  intros Hb pf Hin.
  destruct (overlaps p pf) eqn:E; [exfalso | reflexivity].
  apply overlaps_band in E.
  unfold initPlatforms in Hin. cbn [map seq In] in Hin.
  repeat (destruct Hin as [<- | Hin];
          [cbn [Platform.y Platform.height] in E;
           unfold canvas_height, platformGap, platformHeight in E;
           cbn [Z.of_nat Pos.of_succ_nat Pos.succ] in E;
           unfold inject_Z in E; lra |]).
  exact Hin.
Qed.

(** A tick between the bands of the initial ladder only moves the player. *)
Lemma tick_clear `{Runtime} (rand0 rand : Random) (g : Game) :
  platforms g = initPlatforms rand0 ->
  clear (player (drift g)) = true ->
  updatePlayer rand g = Done (drift g).
Proof.
  intros Hps Hc. unfold drift in *. cbn [player with_player] in Hc.
  set (p1 := moved (keys g) (player g)) in *.
  unfold clear in Hc. rewrite !andb_true_iff, !Qle_bool_iff in Hc.
  destruct Hc as [[[Hlo Hhi] Hthird] Hcanvas].
  unfold updatePlayer. fold p1.
  rewrite collide_clear
    by (rewrite Hps; apply initPlatforms_clear; split; assumption).
  assert (Hs : scrolling p1 = false).
  { unfold scrolling. rewrite (proj2 (Qltb_false_iff _ _) Hthird).
    reflexivity. }
  rewrite scroll_idle by exact Hs.
  rewrite (proj2 (Qltb_false_iff _ _) Hcanvas). reflexivity.
Qed.

Lemma drift_n_fields (n : nat) (g : Game) :
  gameRunning (drift_n n g) = gameRunning g
  /\ score (drift_n n g) = score g
  /\ highScore (drift_n n g) = highScore g
  /\ platforms (drift_n n g) = platforms g
  /\ keys (drift_n n g) = keys g
  /\ localStorage (drift_n n g) = localStorage g.
Proof.
  revert g. induction n as [| n IH]; intro g; cbn [drift_n].
  - repeat split.
  - destruct (IH (drift g)) as (H1 & H2 & H3 & H4 & H5 & H6).
    rewrite H1, H2, H3, H4, H5, H6. repeat split.
Qed.

Lemma drift_run `{Runtime} (rand0 : Random) (rs : list Random) (g : Game) :
  platforms g = initPlatforms rand0 ->
  gameRunning g = true ->
  clear_path (length rs) g = true ->
  run g (map Frame rs) = Done (drift_n (length rs) g).
Proof.
  revert g. induction rs as [| r rs IH]; intros g Hps Hrun Hc.
  - reflexivity.
  - cbn [length clear_path] in Hc. apply andb_true_iff in Hc.
    destruct Hc as [Hc1 Hc2].
    cbn [map run length drift_n].
    rewrite step_Frame, (gameLoop_running r g Hrun).
    rewrite (tick_clear rand0 r g Hps Hc1).
    apply IH; [exact Hps | exact Hrun | exact Hc2].
Qed.

Lemma run_app `{Runtime} (es1 es2 : list Event) (g : Game) :
  run g (es1 ++ es2)
  = match run g es1 with
    | Done g1 => run g1 es2
    | TypeError => TypeError
    | OutOfFuel => OutOfFuel
    end.
Proof.
  revert g. induction es1 as [| e es1 IH]; intro g; [reflexivity |].
  cbn [app run]. destruct (step g e); try reflexivity. apply IH.
Qed.

(** A bounce on the first platform in list order whose band the falling
    player overlaps. *)
Lemma tick_bounce `{Runtime} (rand : Random) (g : Game) (pf : Platform.t) :
  let p1 := moved (keys g) (player g) in
  Player.height (player g) == 50 ->
  0 < Player.velocityY p1 ->
  find (overlaps p1) (platforms g) = Some pf ->
  exists g',
    updatePlayer rand g = Done g'
    /\ Player.velocityY (player g') = jumpStrength
    /\ Player.jumping (player g') = true
    /\ Player.y (player g') = Player.y p1
    /\ score g'
       = (Z.max (score g) (jumpScore pf)
          + (if Qltb (Player.y p1) (canvas_height / 3) then 15 else 0))%Z
    /\ (Qltb (Player.y p1) (canvas_height / 3) = false ->
        platforms g' = platforms g).
Proof.
  intros p1 Hh Hfall Hfind.
  assert (Hc : collide p1 (score g) (platforms g)
               = (Player.set_jumping true
                    (Player.set_velocityY jumpStrength p1),
                  Z.max (score g) (jumpScore pf))).
  { unfold collide. rewrite (proj2 (Qltb_iff _ _) Hfall).
    rewrite fold_bounce_first by (apply Qltb_iff; exact Hfall).
    rewrite Hfind. reflexivity. }
  pose proof (updatePlayer_spec rand g) as Hspec. cbv zeta in Hspec.
  fold p1 in Hspec. rewrite Hc in Hspec. cbn [fst snd] in Hspec.
  set (p2 := Player.set_jumping true (Player.set_velocityY jumpStrength p1))
    in *.
  assert (Hs : scrolling p2 = Qltb (Player.y p1) (canvas_height / 3)).
  { unfold scrolling. simpl. apply andb_true_r. }
  destruct (Qltb (Player.y p1) (canvas_height / 3)) eqn:Hy.
  - apply Qltb_iff in Hy.
    assert (Hthird : canvas_height / 3 == 200) by reflexivity.
    rewrite Hthird in Hy.
    destruct (find_some _ _ Hfind) as [Hin Hov].
    apply overlaps_band in Hov. destruct Hov as [Htop _].
    unfold p1 in Htop at 2. rewrite moved_height in Htop.
    assert (Hne : scrolled (- Player.velocityY p2) (platforms g) <> []).
    { intro Hnil.
      assert (Hk : In (Platform.add_y (- Player.velocityY p2) pf)
                      (scrolled (- Player.velocityY p2) (platforms g))).
      { unfold scrolled. apply filter_In. split.
        - apply in_map. exact Hin.
        - apply Qltb_iff. simpl.
          unfold jumpStrength, canvas_height in *. lra. }
      rewrite Hnil in Hk. exact Hk. }
    destruct (scroll_nonempty rand p2 (platforms g)
                (Z.max (score g) (jumpScore pf)) Hs Hne) as (ps' & Hsc & _).
    rewrite Hsc in Hspec. destruct Hspec as (g' & Hu & Hp & Hscore & _).
    exists g'. split; [exact Hu |]. rewrite Hp, Hscore.
    repeat split. discriminate.
  - rewrite (scroll_idle rand p2 _ _ Hs) in Hspec.
    destruct Hspec as (g' & Hu & Hp & Hscore & Hps & _).
    exists g'. split; [exact Hu |]. rewrite Hp, Hscore, Hps.
    repeat split. lia.
Qed.

(** X14: in a reachable state, when the falling player overlaps the band of
    a platform, whichever it is, the tick completes with the vertical
    velocity at the jump strength, the jumping flag set, and the score at
    the larger of the previous score and that platform's jump score, plus
    the 15 of the scroll when the move ended in the upper third. *)
Theorem landing_in_a_reachable_state `{Runtime} (rand : Random) (g : Game)
    (pf : Platform.t) :
  reachable g ->
  In pf (platforms g) ->
  let p1 := moved (keys g) (player g) in
  0 < Player.velocityY p1 ->
  overlaps p1 pf = true ->
  exists g',
    updatePlayer rand g = Done g'
    /\ Player.velocityY (player g') = jumpStrength
    /\ Player.jumping (player g') = true
    /\ score g'
       = (Z.max (score g) (jumpScore pf)
          + (if Qltb (Player.y p1) (canvas_height / 3) then 15 else 0))%Z.
Proof.
  intros Hreach Hin p1 Hfall Hov.
  destruct (reachable_sizes g Hreach) as (_ & Hh & _).
  destruct (find (overlaps p1) (platforms g)) as [pf' |] eqn:Hfind.
  2:{ rewrite (find_none _ _ Hfind pf Hin) in Hov. discriminate. }
  destruct (find_some _ _ Hfind) as [Hin' Hov'].
  destruct (In_nth_error _ _ Hin) as [i Hi].
  destruct (In_nth_error _ _ Hin') as [j Hj].
  assert (Hij : i = j) by (eapply reachable_bands; eassumption).
  assert (pf' = pf) by congruence. subst pf'.
  destruct (tick_bounce rand g pf) as (g' & Hu & Hv & Hjump & _ & Hs & _).
  - rewrite Hh. reflexivity.
  - exact Hfall.
  - exact Hfind.
  - exists g'. repeat split; assumption.
Qed.

(** X14 at the first bounce after start-up. *)
Lemma landing_in_a_reachable_state_witness :
  exists g pf g',
    @play decimalRuntime None half (frames 12) = Done g
    /\ nth_error (platforms g) 0 = Some pf
    /\ @updatePlayer decimalRuntime half g = Done g'
    /\ Player.velocityY (player g') = jumpStrength
    /\ Player.jumping (player g') = true
    /\ score g' = 5%Z.
Proof.
  assert (Hp : exists g pf,
             @play decimalRuntime None half (frames 12) = Done g
             /\ nth_error (platforms g) 0 = Some pf
             /\ 0 < Player.velocityY (moved (keys g) (player g))
             /\ overlaps (moved (keys g) (player g)) pf = true
             /\ (Z.max (score g) (jumpScore pf)
                 + (if Qltb (Player.y (moved (keys g) (player g)))
                            (canvas_height / 3) then 15 else 0))%Z = 5%Z).
  { eexists. eexists. split; [vm_compute; reflexivity |].
    split; [reflexivity |]. repeat split; vm_compute; reflexivity. }
  destruct Hp as (g & pf & Hp & Hn & Hfall & Hov & Hsc).
  destruct (@landing_in_a_reachable_state decimalRuntime half g pf)
    as (g' & Hu & Hv & Hj & Hs).
  - exact (@reachable_play decimalRuntime None half _ g Hp).
  - exact (nth_error_In _ _ Hn).
  - exact Hfall.
  - exact Hov.
  - exists g, pf, g'. rewrite Hsc in Hs. repeat split; assumption.
Defined.

(** ** Restart and start-up *)

(** X1: a restart from any reachable state completes and leaves a running
    game with score 0, the fresh ladder drawn by [initPlatforms], and the
    player one tick away from the start position and from rest: the
    horizontal velocity is what the held key gives ([- moveSpeed] with the
    left key, [moveSpeed] with the right key alone, 0 with none), [x] is
    [canvas_width / 2 - 25] plus that velocity, [y] is
    [canvas_height - 150 + gravity] and the vertical velocity is [gravity].
    The high score, the stored item, the key flags and the jumping flag
    are as they were. *)
Theorem restart_starts_afresh `{Runtime} (rand : Random) (g : Game) :
  reachable g ->
  exists g',
    step g (Restart rand) = Done g'
    /\ gameRunning g' = true
    /\ score g' = 0%Z
    /\ platforms g' = initPlatforms rand
    /\ Player.velocityX (player g')
       == (if Keys.left (keys g) then - moveSpeed
           else if Keys.right (keys g) then moveSpeed else 0)
    /\ Player.x (player g')
       == canvas_width / 2 - 25 + Player.velocityX (player g')
    /\ Player.y (player g') == canvas_height - 150 + gravity
    /\ Player.velocityY (player g') == gravity
    /\ Player.jumping (player g') = Player.jumping (player g)
    /\ highScore g' = highScore g
    /\ localStorage g' = localStorage g
    /\ keys g' = keys g.
Proof.
  intro Hreach. destruct (reachable_sizes g Hreach) as (Hw & Hh & _).
  exists (drift (reset rand g)). rewrite step_Restart.
  set (p0 := player (reset rand g)).
  assert (Hp : player (drift (reset rand g)) = moved (keys g) p0)
    by reflexivity.
  assert (Hy : Player.y (player (drift (reset rand g)))
               = canvas_height - 150 + (0 + gravity)).
  { rewrite Hp, moved_y. reflexivity. }
  assert (Hv : Player.velocityY (player (drift (reset rand g)))
               = 0 + gravity).
  { rewrite Hp, moved_velocityY. reflexivity. }
  assert (Hhd : Player.height (player (drift (reset rand g))) = 50).
  { rewrite Hp, moved_height. exact Hh. }
  assert (Hvx : Player.velocityX (moved (keys g) p0)
                == (if Keys.left (keys g) then - moveSpeed
                    else if Keys.right (keys g) then moveSpeed else 0)).
  { rewrite moved_velocityX, steer_velocityX.
    change (Player.velocityX p0) with 0.
    destruct (Keys.left (keys g)); [reflexivity |].
    destruct (Keys.right (keys g)); reflexivity. }
  assert (Hb : - moveSpeed <= Player.velocityX (moved (keys g) p0)
               <= moveSpeed).
  { rewrite Hvx. unfold moveSpeed.
    destruct (Keys.left (keys g)); [lra |].
    destruct (Keys.right (keys g)); lra. }
  assert (Hx : Player.x (moved (keys g) p0)
               == canvas_width / 2 - 25
                  + Player.velocityX (moved (keys g) p0)).
  { rewrite moved_x, moved_velocityX.
    assert (Hsx : Player.x (steer (keys g) p0)
                  = canvas_width / 2 - 25
                    + Player.velocityX (steer (keys g) p0))
      by reflexivity.
    assert (Hsw : Player.width (steer (keys g) p0) = 50) by exact Hw.
    rewrite moved_velocityX in Hb.
    assert (Hhalf : canvas_width / 2 - 25 == 205) by reflexivity.
    destruct (wrap_x_cases (steer (keys g) p0))
      as [[Hlt _] | [(_ & Hgt & _) | (_ & ->)]].
    - exfalso. rewrite Hsx, Hsw, Hhalf in Hlt. unfold moveSpeed in Hb. lra.
    - exfalso. rewrite Hsx, Hhalf in Hgt.
      unfold moveSpeed, canvas_width in *. lra.
    - rewrite Hsx. reflexivity. }
  assert (Hj : Player.jumping (moved (keys g) p0)
               = Player.jumping (player g)).
  { unfold moved, fall, wrap. cbn [Player.jumping Player.set_y
                                     Player.set_velocityY].
    destruct (Qltb (Player.x (steer (keys g) p0))
                   (- Player.width (steer (keys g) p0)));
      [| destruct (Qltb canvas_width (Player.x (steer (keys g) p0)))];
      reflexivity. }
  split.
  - apply (tick_clear rand); [reflexivity |].
    unfold clear. rewrite Hy, Hhd.
    rewrite !andb_true_iff, !Qle_bool_iff.
    assert (Hthird : canvas_height / 3 == 200) by reflexivity.
    rewrite Hthird. unfold canvas_height, gravity. repeat split; lra.
  - rewrite Hy, Hv, Hp. unfold gravity.
    split; [reflexivity |]. split; [reflexivity |]. split; [reflexivity |].
    split; [exact Hvx |]. split; [exact Hx |].
    split; [lra |]. split; [lra |]. split; [exact Hj |].
    repeat split.
Qed.

(** X1 from the game-over state reached by holding the left arrow: the
    key is still held, and the restarted player moves left from the start
    position. *)
Lemma restart_starts_afresh_witness :
  exists g g',
    @play decimalRuntime None half (Press ArrowLeft :: frames 30) = Done g
    /\ gameRunning g = false
    /\ Keys.left (keys g) = true
    /\ @step decimalRuntime g (Restart half) = Done g'
    /\ gameRunning g' = true
    /\ score g' = 0%Z
    /\ platforms g' = initPlatforms half
    /\ Player.velocityX (player g')
       == (if Keys.left (keys g) then - moveSpeed
           else if Keys.right (keys g) then moveSpeed else 0)
    /\ Player.x (player g')
       == canvas_width / 2 - 25 + Player.velocityX (player g')
    /\ Player.y (player g') == canvas_height - 150 + gravity
    /\ Player.velocityY (player g') == gravity
    /\ Player.jumping (player g') = Player.jumping (player g)
    /\ highScore g' = highScore g
    /\ localStorage g' = localStorage g
    /\ keys g' = keys g.
Proof.
  assert (Hp : exists g,
             @play decimalRuntime None half (Press ArrowLeft :: frames 30)
             = Done g /\ gameRunning g = false
             /\ Keys.left (keys g) = true).
  { eexists. split; [| split]; vm_compute; reflexivity. }
  destruct Hp as (g & Hp & Hover & Hleft).
  destruct (@restart_starts_afresh decimalRuntime half g
              (@reachable_play decimalRuntime None half _ g Hp))
    as (g' & Hrest).
  exists g, g'. split; [exact Hp |]. split; [exact Hover |].
  split; [exact Hleft | exact Hrest].
Defined.

(** ** The first bounce *)

Lemma find_head (A : Type) (f : A -> bool) (a : A) (l : list A) :
  f a = true -> find f (a :: l) = Some a.
Proof. intro Hf. cbn [find]. rewrite Hf. reflexivity. Qed.

Lemma initPlatforms_head (rand : Random) :
  initPlatforms rand = first_platform :: tl (initPlatforms rand).
Proof. reflexivity. Qed.

Lemma before_first_bounce_fields (stored : option string) (rand : Random) :
  gameRunning (before_first_bounce stored rand) = true
  /\ score (before_first_bounce stored rand) = 0%Z
  /\ platforms (before_first_bounce stored rand) = initPlatforms rand.
Proof.
  destruct (drift_n_fields 12 (drift (loaded stored rand)))
    as (Hrun & Hsc & _ & Hps & _).
  unfold before_first_bounce. rewrite Hrun, Hsc, Hps. repeat split.
Qed.

Lemma first_ticks_clear (stored : option string) (rand : Random) :
  clear (player (drift (loaded stored rand))) = true
  /\ clear_path 12 (drift (loaded stored rand)) = true.
Proof. split; vm_compute; reflexivity. Qed.

(** Where the player stands in the fourteenth tick. *)
Lemma fourteenth_move (stored : option string) (rand : Random) :
  let g := before_first_bounce stored rand in
  let p1 := moved (keys g) (player g) in
  Player.height (player g) == 50
  /\ 0 < Player.velocityY p1
  /\ overlaps p1 first_platform = true
  /\ Qltb (Player.y p1) (canvas_height / 3) = false
  /\ Player.y p1 <= canvas_height.
Proof.
  cbv zeta. repeat split; vm_compute; first [reflexivity | discriminate].
Qed.

Lemma first_tick `{Runtime} (stored : option string) (rand : Random) :
  boot stored rand = Done (drift (loaded stored rand)).
Proof.
  destruct (first_ticks_clear stored rand) as [Hc0 _].
  rewrite boot_tick.
  exact (tick_clear rand _ (loaded stored rand) eq_refl Hc0).
Qed.

Lemma next_twelve_ticks `{Runtime} (stored : option string)
    (rand : Random) (rs : list Random) :
  length rs = 12%nat ->
  run (drift (loaded stored rand)) (map Frame rs)
  = Done (before_first_bounce stored rand).
Proof.
  intro Hlen. destruct (first_ticks_clear stored rand) as [_ Hc].
  rewrite (drift_run rand rs (drift (loaded stored rand)) eq_refl eq_refl)
    by (rewrite Hlen; exact Hc).
  rewrite Hlen. reflexivity.
Qed.

Lemma fourteenth_tick `{Runtime} (stored : option string) (rand r : Random) :
  exists g,
    updatePlayer r (before_first_bounce stored rand) = Done g
    /\ Player.velocityY (player g) = jumpStrength
    /\ score g = 5%Z
    /\ gameRunning g = true
    /\ platforms g = initPlatforms rand.
Proof.
  destruct (before_first_bounce_fields stored rand) as (Hrun & Hsc & Hps).
  destruct (fourteenth_move stored rand) as (Hh & Hf & Hov & Hthird & Hcan).
  destruct (tick_bounce r (before_first_bounce stored rand) first_platform
              Hh Hf) as (g' & Hu & Hv & _ & Hy & Hs & Hps').
  { rewrite Hps, initPlatforms_head. apply find_head. exact Hov. }
  exists g'. split; [exact Hu |]. split; [exact Hv |].
  rewrite Hthird, Hsc in Hs.
  destruct (updatePlayer_cases r _ g' Hu) as [(_ & Hr & _) | (Hlt & _)].
  - rewrite Hs, Hr, (Hps' Hthird), Hps, Hrun. repeat split.
  - exfalso. rewrite Hy in Hlt. exact (Qlt_not_le _ _ Hlt Hcan).
Qed.

Lemma run_one `{Runtime} (g : Game) (e : Event) : run g [e] = step g e.
Proof. cbn [run]. destruct (step g e); reflexivity. Qed.

Lemma map_Frame_one (r : Random) : map Frame [r] = [Frame r].
Proof. reflexivity. Qed.

(** X6: left alone after start-up, the player lands on the bottom platform
    on the 14th tick (the one start-up runs and 13 frames), whatever was
    stored and whatever [Math.random()] drew, at start-up and in the
    frames: the run completes with the velocity at the jump strength, the
    score at 5, the game running and the initial ladder untouched. *)
Theorem first_bounce `{Runtime} (stored : option string) (rand : Random)
    (rs : list Random) :
  length rs = 13%nat ->
  exists g,
    play stored rand (map Frame rs) = Done g
    /\ Player.velocityY (player g) = jumpStrength
    /\ score g = 5%Z
    /\ gameRunning g = true
    /\ platforms g = initPlatforms rand.
Proof.
  intro Hlen.
  assert (Hl12 : length (firstn 12 rs) = 12%nat)
    by (rewrite length_firstn; lia).
  destruct (skipn 12 rs) as [| r [| r' rest]] eqn:Hskip;
    try (apply (f_equal (@length Random)) in Hskip;
         rewrite length_skipn, Hlen in Hskip; cbn [length] in Hskip; lia).
  destruct (fourteenth_tick stored rand r) as (g & Hu & Hrest).
  destruct (before_first_bounce_fields stored rand) as (Hrun & _).
  exists g. split; [| exact Hrest].
  rewrite <- (firstn_skipn 12 rs), Hskip, map_app.
  unfold play. rewrite first_tick, run_app.
  rewrite (next_twelve_ticks stored rand _ Hl12), map_Frame_one, run_one.
  rewrite step_Frame, (gameLoop_running r _ Hrun). exact Hu.
Qed.

(** X6 with nothing stored and every draw at one half. *)
Lemma first_bounce_witness :
  exists g,
    @play decimalRuntime None half (map Frame (repeat half 13)) = Done g
    /\ Player.velocityY (player g) = jumpStrength
    /\ score g = 5%Z
    /\ gameRunning g = true
    /\ platforms g = initPlatforms half.
Proof.
  exact (@first_bounce decimalRuntime None half (repeat half 13) eq_refl).
Defined.

(** ** Platforms stay on the canvas *)

Lemma on_canvas_spawn (r : Q) (lp : Platform.t) :
  0 <= r < 1 -> on_canvas (spawn r lp).
Proof.
  intros [H0 H1]. unfold on_canvas, spawn.
  cbn [Platform.x Platform.width].
  unfold canvas_width, platformWidth. split; lra.
Qed.

Lemma on_canvas_initPlatforms (rand : Random) :
  fair rand -> Forall on_canvas (initPlatforms rand).
Proof.
  intro Hf. unfold initPlatforms. cbn [map seq].
  repeat (constructor;
          [match goal with
           | |- on_canvas {| Platform.x := rand ?k * _ |} =>
               exact (on_canvas_spawn (rand k)
                        {| Platform.x := 0; Platform.y := 0;
                           Platform.width := 0; Platform.height := 0 |}
                        (Hf k))
           | |- _ => split; vm_compute; discriminate
           end |]).
  constructor.
Qed.

Lemma updatePlayer_on_canvas `{Runtime} (rand : Random) (g g' : Game) :
  fair rand ->
  Forall on_canvas (platforms g) ->
  updatePlayer rand g = Done g' ->
  Forall on_canvas (platforms g').
Proof.
  intros Hf Hg Hu. destruct (updatePlayer_Done rand g g' Hu) as (Hs & _).
  eapply (scroll_Forall on_canvas); [| | exact Hg | exact Hs].
  - intros d pf Hpf. exact Hpf.
  - intros k lp. apply on_canvas_spawn, Hf.
Qed.

Lemma fair_shift (rand : Random) (n : nat) :
  fair rand -> fair (fun k => rand (n + k)%nat).
Proof. intros Hf k. apply Hf. Qed.

Lemma step_on_canvas `{Runtime} (g : Game) (e : Event) (g' : Game) :
  fair_event e ->
  Forall on_canvas (platforms g) ->
  step g e = Done g' ->
  Forall on_canvas (platforms g').
Proof.
  intros He Hg. destruct e as [k | k | rand | rand].
  - rewrite step_Press. intro Hs. injection Hs as <-. exact Hg.
  - rewrite step_Release. intro Hs. injection Hs as <-. exact Hg.
  - rewrite step_Frame. unfold gameLoop. destruct (gameRunning g).
    + apply updatePlayer_on_canvas; assumption.
    + intro Hs. injection Hs as <-. exact Hg.
  - rewrite step_Restart.
    apply updatePlayer_on_canvas;
      [apply fair_shift; exact He | apply on_canvas_initPlatforms; exact He].
Qed.

(** X15: when every draw of [Math.random()] lies in the range from 0 to 1,
    1 excluded, every platform of every state reached lies between the left
    and the right edge of the canvas. *)
Theorem platforms_stay_on_canvas `{Runtime} (stored : option string)
    (rand : Random) (es : list Event) (g : Game) :
  fair rand ->
  Forall fair_event es ->
  play stored rand es = Done g ->
  Forall on_canvas (platforms g).
Proof.
  intros Hf Hes. unfold play. rewrite boot_tick.
  destruct (updatePlayer _ (loaded stored rand)) as [g0 | |] eqn:Hb;
    try discriminate.
  apply (updatePlayer_on_canvas _ (loaded stored rand) g0
           (fair_shift rand 9 Hf) (on_canvas_initPlatforms rand Hf)) in Hb.
  revert g0 Hb. induction Hes as [| e es He _ IH]; intros g0 Hg0; cbn [run].
  - intro Heq. injection Heq as <-. exact Hg0.
  - destruct (step g0 e) as [g1 | |] eqn:Hs; try discriminate.
    apply IH. eapply step_on_canvas; eassumption.
Qed.

Lemma fair_half : fair half.
Proof. intro k. unfold half. split; lra. Qed.

(** X15 over 61 frames and a restart, with every draw at one half. *)
Lemma platforms_stay_on_canvas_witness :
  exists g,
    @play decimalRuntime None half (frames 61 ++ [Restart half]) = Done g
    /\ Forall on_canvas (platforms g).
Proof.
  assert (Hp : exists g,
             @play decimalRuntime None half (frames 61 ++ [Restart half])
             = Done g).
  { eexists. vm_compute; reflexivity. }
  destruct Hp as (g & Hp). exists g. split; [exact Hp |].
  apply (@platforms_stay_on_canvas decimalRuntime None half
           (frames 61 ++ [Restart half]) g fair_half); [| exact Hp].
  apply Forall_app. split.
  - apply Forall_forall. intros e Hin. apply repeat_spec in Hin.
    subst e. exact fair_half.
  - constructor; [exact fair_half | constructor].
Defined.

(** * The claims on the collision pass and on the scroll *)

(** ** C1 *)







(** ** C6 *)

(** C6: from every reachable state, a tick whose scroll branch runs at
    speed [d] completes, and the platforms it leaves are the platforms of
    before moved down by [d], without those now at or below the margin
    [canvas_height + 50], followed by the platforms the loop appends to
    make the count 10 again: none when ten are kept, and otherwise one,
    spawned [platformGap] above the last kept platform from the first draw
    of [Math.random()].  The list has exactly 10 elements, all above the
    margin. *)
Theorem platform_count_after_scroll `{Runtime} (rand : Random) (g : Game) :
  reachable g ->
  scrolling (bounced g) = true ->
  let d := - Player.velocityY (bounced g) in
  let kept :=
    filter (fun pf => Qltb (Platform.y pf) (canvas_height + 50))
           (map (Platform.add_y d) (platforms g)) in
  exists g',
    updatePlayer rand g = Done g'
    /\ (length kept = 10%nat /\ platforms g' = kept
        \/ length kept = 9%nat
           /\ exists lp, lastPlatform kept = Some lp
                         /\ platforms g' = kept ++ [spawn (rand 0%nat) lp])
    /\ length (platforms g') = 10%nat
    /\ Forall (fun pf => Platform.y pf < canvas_height + 50) (platforms g').
Proof.
  intros Hreach Hs d kept.
  pose proof (reachable_Inv g Hreach) as Hinv.
  destruct (Inv_tick rand g Hinv)
    as [_ (g' & Hu & _ & Hlen' & y1 & Hy1 & Hlad')].
  exists g'. split; [exact Hu |].
  split; [| split; [exact Hlen' | eapply ladder_below; eassumption]].
  destruct Hinv as [Hvy [Hlen (y0 & Hy0 & Hlad)]].
  pose proof (collide_velocityY_floor (keys g) (player g) (score g)
                (platforms g) Hvy) as Hvy2.
  destruct (updatePlayer_Done rand g g' Hu) as (Hscroll & _).
  fold (bounced g) in Hscroll, Hvy2.
  pose proof Hs as Hneg. apply scrolling_iff in Hneg.
  destruct Hneg as [_ Hneg].
  assert (Hd : 0 < d <= 15) by (unfold d, jumpStrength in *; lra).
  unfold scroll in Hscroll. rewrite Hs in Hscroll. cbv zeta in Hscroll.
  unfold scrolled in Hscroll. fold d in Hscroll. fold kept in Hscroll.
  assert (Hk : (length kept = 10%nat \/ length kept = 9%nat)
               /\ kept <> []).
  { clear Hscroll. unfold kept.
    destruct (platforms g) as [| a l]; [discriminate |].
    assert (Hl : length l = 9%nat) by (simpl in Hlen; lia).
    pose proof (ladder_add_y d _ _ Hlad) as Hshift. cbn [map] in Hshift.
    cbn [map].
    destruct (ladder_filter (canvas_height + 50) _ _ _ Hshift)
      as [[_ Hkeep] | [_ Hkeep]].
    { unfold platformGap. lra. }
    - rewrite Hkeep. cbn [length]. rewrite length_map, Hl.
      split; [left; reflexivity | discriminate].
    - rewrite Hkeep, length_map, Hl.
      split; [right; reflexivity |].
      destruct l; [discriminate Hl | discriminate]. }
  destruct Hk as [[H10 | H9] Hne].
  - left. split; [exact H10 |].
    rewrite replenish_full in Hscroll by lia. congruence.
  - right. split; [exact H9 |].
    destruct (lastPlatform_Some kept Hne) as (lp & Hlast & _).
    exists lp. split; [exact Hlast |].
    rewrite (replenish_one 9 rand 0 kept lp H9 Hlast) in Hscroll.
    congruence.
Qed.

(** C6 at the state reached by 61 frames after start-up, whose next tick
    scrolls the lowest platform below the margin: nine platforms are kept
    and one is appended. *)
Lemma platform_count_after_scroll_witness :
  exists g,
    @play decimalRuntime None half (frames 61) = Done g
    /\ scrolling (bounced g) = true
    /\ length (filter (fun pf => Qltb (Platform.y pf) (canvas_height + 50))
                 (map (Platform.add_y (- Player.velocityY (bounced g)))
                      (platforms g))) = 9%nat
    /\ (let d := - Player.velocityY (bounced g) in
        let kept :=
          filter (fun pf => Qltb (Platform.y pf) (canvas_height + 50))
                 (map (Platform.add_y d) (platforms g)) in
        exists g',
          @updatePlayer decimalRuntime half g = Done g'
          /\ (length kept = 10%nat /\ platforms g' = kept
              \/ length kept = 9%nat
                 /\ exists lp,
                      lastPlatform kept = Some lp
                      /\ platforms g' = kept ++ [spawn (half 0%nat) lp])
          /\ length (platforms g') = 10%nat
          /\ Forall (fun pf => Platform.y pf < canvas_height + 50)
                    (platforms g')).
Proof.
  assert (Hp : exists g,
             @play decimalRuntime None half (frames 61) = Done g
             /\ scrolling (bounced g) = true
             /\ length (filter
                          (fun pf => Qltb (Platform.y pf) (canvas_height + 50))
                          (map (Platform.add_y
                                  (- Player.velocityY (bounced g)))
                               (platforms g))) = 9%nat).
  { eexists. split; [vm_compute; reflexivity |].
    split; [vm_compute; reflexivity | vm_compute; reflexivity]. }
  destruct Hp as (g & Hp & Hs & H9). exists g.
  split; [exact Hp |]. split; [exact Hs |]. split; [exact H9 |].
  exact (@platform_count_after_scroll decimalRuntime half g
           (@reachable_play decimalRuntime None half _ g Hp) Hs).
Defined.
